(** * GawPanCra21: the pathway-analysis notebooks

    The repository holds two Jupyter notebooks, [EcoliPPP] (pentose
    phosphate pathways) and [ModularEcoli] (modular metabolism).  Their
    code cells define five small functions ([ch], [printChem],
    [Chemostats], [pathway], [Pathway]) and otherwise sequence calls into
    libraries that are not part of the repository ([stoich],
    [CobraExtract], [stoichBondGraph], [modularBondGraph],
    [BondGraphTools], ...).

    The notebooks are embedded shallowly: a notebook function is a Rocq
    function in a state-and-exception monad over a [World]; every library
    call goes through one section variable [call], which stands for the
    whole external environment, and is recorded in a call log.  All
    results below hold for every library. *)

From Stdlib Require Import String Ascii List ZArith Lia Sorted Permutation.
From stdpp Require Import gmap strings list sorting.
Import ListNotations.
Local Open Scope string_scope.
Local Open Scope list_scope.

(** ** Python values *)

(** The values that flow through the notebooks.  Lists and tuples are kept
    by value; objects made by the libraries (stoichiometric records, bond
    graph models, arrays, typeset text) are references into the heap. *)
#[warnings="-register-all"]
Inductive pyval : Type :=
| PNone
| PBool (b : bool)
| PInt (z : Z)
| PStr (s : string)
| PList (l : list pyval)
| PTuple (l : list pyval)
| PRef (r : nat).

(** A heap object is either a record, that is a Python [dict] with string
    keys such as [s['N']], [s['reaction']], [s['name']], or an object
    whose content only the libraries know. *)
Inductive obj : Type :=
| ODict (d : gmap string pyval)
| OOpaque.

(** A raised exception: its class name and its argument. *)
Inductive exn : Type :=
| PyExc (cls : string) (arg : pyval).

Inductive result (A : Type) : Type :=
| Ok (a : A)
| Raise (e : exn).
Arguments Ok {A} a.
Arguments Raise {A} e.

(** One interaction with the environment: the callee as the source names
    it, positional arguments, keyword arguments, and what came back. *)
Record Event : Type := Ev {
  ev_fn : string;
  ev_args : list pyval;
  ev_kwargs : list (string * pyval);
  ev_res : result pyval
}.

(** What a notebook writes itself: [print(...)] with its arguments, and
    the value Jupyter displays for an expression statement. *)
Inductive output : Type :=
| Printed (args : list pyval)
| Displayed (v : pyval).

(** A Python list of strings. *)
Definition strs (l : list string) : pyval := PList (map PStr l).

Definition is_str (v : pyval) : bool :=
  match v with PStr _ => true | _ => false end.

Definition is_str_list (v : pyval) : bool :=
  match v with PList l => forallb is_str l | _ => false end.

(** Keyword argument lookup. *)
Fixpoint kwarg (k : string) (kw : list (string * pyval)) : option pyval :=
  match kw with
  | [] => None
  | (k', v) :: rest => if String.eqb k k' then Some v else kwarg k rest
  end.

(** Operator dispatch ([__getitem__], [__sub__], [__import__], ...) is
    told apart from calls of named library functions by its name. *)
Definition is_operator (fn : string) : bool := String.prefix "__" fn.

Definition library_calls (l : list Event) : list Event :=
  List.filter (fun ev => negb (is_operator (ev_fn ev))) l.

Definition is_call (fn : string) (ev : Event) : bool := String.eqb (ev_fn ev) fn.

(** ** Pure notebook functions *)

(** [ch], EcoliPPP cell 6:
<<
def ch(name):
    return '\\ch{'+name+'}'
>> *)
Definition ch (name : string) : string := "\ch{" +:+ name +:+ "}".

(** Python's [s[:stop]] on a string, for any integer [stop]. *)
Definition slice_to (stop : Z) (s : string) : string :=
  let len := Z.of_nat (String.length s) in
  let stop' := if (stop <? 0)%Z then Z.max (len + stop) 0 else Z.min stop len in
  substring 0 (Z.to_nat stop') s.

(** [printChem], ModularEcoli cell 2:
<<
def printChem(chem):
    Chem = ''
    for c in chem:
        Chem += f'\ch{{{c}}}, '
    return Chem[:-2]
>>
    The f-string contributes a backslash, [ch], an opening brace, the
    name, a closing brace, a comma and a blank. *)
Definition printChem (chem : list string) : string :=
  let Chem := fold_left (fun Chem c => Chem +:+ ("\ch{" +:+ c +:+ "}, ")) chem "" in
  slice_to (-2) Chem.

(** [printChem] as the specification words it: each name wrapped, the
    wrapped names joined by a comma and a blank. *)
Definition printChem_spec (chem : list string) : string :=
  String.concat ", " (map (fun name => "\ch{" +:+ name +:+ "}") chem).

(** [Chemostats], EcoliPPP cell 7.  [end_] is [None] or a list of names. *)
Definition Chemostats (start : string) (end_ : option (list string)) : list string :=
  let chemostats := ["ADP"; "ATP"; "CO2"; "H"; "H2O"; "NADP"; "NADPH"] in
  let chemostats := chemostats ++ [start] in
  let chemostats :=
    match end_ with
    | Some e => chemostats ++ e
    | None => chemostats
    end in
  chemostats.

(** The seven species every chemostat list starts with. *)
Definition base_chemostats : list string :=
  ["ADP"; "ATP"; "CO2"; "H"; "H2O"; "NADP"; "NADPH"].

(** The defaults of [def Chemostats(start='G6P',end=None)]. *)
Definition Chemostats_default_start : string := "G6P".
Definition Chemostats_default_end : option (list string) := None.

(** [sorted] on a list of strings: stable insertion by code points. *)
Fixpoint insert_sorted (x : string) (l : list string) : list string :=
  match l with
  | [] => [x]
  | y :: rest => if String.leb y x then y :: insert_sorted x rest else x :: l
  end.

Definition sorted (l : list string) : list string :=
  fold_left (fun acc x => insert_sorted x acc) l [].

(** Globals set in EcoliPPP cell 1 and ModularEcoli cell 1. *)
Definition quiet : bool := true.
Definition showMu : bool := true.

(** ** Data of the EcoliPPP notebook *)

(** Cell 3: the reactions chosen for the Glycolysis and Pentose Phosphate
    record, built by two [+=] on an empty list. *)
Definition GlyPPP_reaction : list string :=
  ([] ++ ["PGI"; "PFK"; "FBA"; "TPI"])
     ++ ["G6PDH2R"; "PGL"; "GND"; "RPI"; "TKT2"; "TALA"; "TKT1"; "RPE"].

(** Cell 5, recorded output: the reactions of that record as the notebook
    typeset them, each with the species on its left and right side. *)
Definition GlyPPP_display : list (list string * string * list string) :=
  [ (["G6P"], "PGI", ["F6P"]);
    (["ATP"; "F6P"], "PFK", ["ADP"; "FDP"; "H"]);
    (["FDP"], "FBA", ["DHAP"; "G3P"]);
    (["DHAP"], "TPI", ["G3P"]);
    (["G6P"; "NADP"], "G6PDH2R", ["6PGL"; "H"; "NADPH"]);
    (["6PGL"; "H2O"], "PGL", ["6PGC"; "H"]);
    (["6PGC"; "NADP"], "GND", ["CO2"; "NADPH"; "RU5PD"]);
    (["RU5PD"], "RPI", ["R5P"]);
    (["E4P"; "XU5PD"], "TKT2", ["F6P"; "G3P"]);
    (["G3P"; "S7P"], "TALA", ["E4P"; "F6P"]);
    (["R5P"; "XU5PD"], "TKT1", ["G3P"; "S7P"]);
    (["RU5PD"], "RPE", ["XU5PD"]) ].

Definition GlyPPP_species : list string :=
  concat (map (fun '(lhs, _, rhs) => lhs ++ rhs) GlyPPP_display).


Definition mem (x : string) (l : list string) : bool :=
  existsb (String.eqb x) l.

(** ** What the analysis functions print *)

(** The two lines [pathway] and [Pathway] print first. *)
Definition header (chemostats flowstats : list string) : list output :=
  [Printed [PStr "Chemostats:"; strs (sorted chemostats)];
   Printed [PStr "Flowstats:"; strs (sorted flowstats)]].

(** The lines printed under [verbose]: one for each chemostat. *)
Definition verbose_lines (verbose : bool) (chemostats : list string) : list output :=
  if verbose
  then map (fun stat => Printed [PStr (ch stat +:+ ",")]) (sorted chemostats)
  else [].


(** The names in [end], none for [None]. *)
Definition elements_of (end_ : option (list string)) : list string :=
  match end_ with Some e => e | None => [] end.

(** The order of [sorted]: strings by code points. *)
Definition leb_rel (a b : string) : Prop := String.leb a b = true.

(** ** A small library to run the notebooks on

    Every call allocates a new record with the entries the notebooks
    read (['N'], ['reaction'], ['Faraday constant']) and returns it;
    nothing that exists is changed and nothing is raised. *)
Definition toy_record : obj :=
  ODict (<["N" := PInt 0]>
         (<["reaction" := PList []]>
          (<["Faraday constant" := PTuple [PInt 96485; PStr "C mol^-1"; PInt 0]]> ∅))).

Definition toy_call (fn : string) (args : list pyval) (kw : list (string * pyval))
    (h : list obj) (st : unit) : result pyval * list obj * unit :=
  (Ok (PRef (length h)), h ++ [toy_record], st).

(** A library in which [st.path] raises and everything else behaves as in
    [toy_call]. *)
Definition failing_path_call (fn : string) (args : list pyval)
    (kw : list (string * pyval)) (h : list obj) (st : unit)
    : result pyval * list obj * unit :=
  if String.eqb fn "st.path"
  then (Raise (PyExc "ValueError" (PStr "singular")), h, st)
  else toy_call fn args kw h st.

(** ** The notebook monad *)

Section Notebooks.

(** The environment: the private state of the libraries, and one function
    for every call into them.  A call sees the heap and the private state,
    may change both, and returns a value or raises. *)
Variable Lib : Type.
Variable call :
  string -> list pyval -> list (string * pyval) ->
  list obj -> Lib -> result pyval * list obj * Lib.

Record World : Type := mkWorld {
  heap : list obj;
  lib : Lib;
  out : list output;
  log : list Event
}.

(** A computation runs on a world and ends in a value or an exception;
    the world reached is kept in both cases. *)
Definition M (A : Type) : Type := World -> result A * World.

Definition ret {A} (a : A) : M A := fun w => (Ok a, w).

Definition raise {A} (e : exn) : M A := fun w => (Raise e, w).

Definition bind {A B} (m : M A) (k : A -> M B) : M B :=
  fun w =>
    match m w with
    | (Ok a, w') => k a w'
    | (Raise e, w') => (Raise e, w')
    end.

Declare Scope nb_scope.
Delimit Scope nb_scope with nb.
Notation "x <- m ;; k" := (bind m (fun x => k))
  (at level 100, m at next level, k at level 200, right associativity) : nb_scope.
Notation "m ;; k" := (bind m (fun _ => k))
  (at level 100, k at level 200, right associativity) : nb_scope.
Local Open Scope nb_scope.

(** A call into the environment.  The libraries see neither the
    notebook's printed output nor the call log. *)
Definition ext (fn : string) (args : list pyval) (kw : list (string * pyval)) : M pyval :=
  fun w =>
    let '(r, h, st) := call fn args kw (heap w) (lib w) in
    (r, {| heap := h; lib := st; out := out w;
           log := log w ++ [Ev fn args kw r] |}).

Definition print_ (args : list pyval) : M unit :=
  fun w => (Ok tt, {| heap := heap w; lib := lib w;
                      out := out w ++ [Printed args]; log := log w |}).

(** Jupyter shows the value of an expression statement unless it is
    [None]. *)
Definition display (v : pyval) : M unit :=
  match v with
  | PNone => ret tt
  | _ => fun w => (Ok tt, {| heap := heap w; lib := lib w;
                             out := out w ++ [Displayed v]; log := log w |})
  end.

Definition alloc (o : obj) : M pyval :=
  fun w => (Ok (PRef (length (heap w))),
            {| heap := heap w ++ [o]; lib := lib w; out := out w; log := log w |}).

Fixpoint for_each {A} (l : list A) (body : A -> M unit) : M unit :=
  match l with
  | [] => ret tt
  | x :: rest => body x ;; for_each rest body
  end.

(** *** Python operations on values *)

(** [copy.copy]: a record is copied to a new record with the same
    entries; other objects copy themselves through the environment;
    immutable values, and lists held by value, are returned as they are. *)
Definition copy_copy (v : pyval) : M pyval :=
  match v with
  | PRef r =>
      fun w =>
        match heap w !! r with
        | Some (ODict d) => alloc (ODict d) w
        | _ => ext "__copy__" [v] [] w
        end
  | _ => ret v
  end.

(** [o[key]] with a string key. *)
Definition getitem (o : pyval) (key : string) : M pyval :=
  match o with
  | PRef r =>
      fun w =>
        match heap w !! r with
        | Some (ODict d) =>
            match d !! key with
            | Some v => ret v w
            | None => raise (PyExc "KeyError" (PStr key)) w
            end
        | _ => ext "__getitem__" [o; PStr key] [] w
        end
  | _ => raise (PyExc "TypeError" (PStr "subscript"))
  end.

(** [o[key] = v] with a string key. *)
Definition setitem (o : pyval) (key : string) (v : pyval) : M unit :=
  match o with
  | PRef r =>
      fun w =>
        match heap w !! r with
        | Some (ODict d) =>
            (Ok tt, {| heap := <[r := ODict (<[key := v]> d)]> (heap w);
                       lib := lib w; out := out w; log := log w |})
        | _ => (ext "__setitem__" [o; PStr key; v] [] ;; ret tt) w
        end
  | _ => raise (PyExc "TypeError" (PStr "item assignment"))
  end.

(** [o[i]] with an integer index. *)
Definition getindex (o : pyval) (i : Z) : M pyval :=
  let at_ (l : list pyval) : M pyval :=
    let n := Z.of_nat (length l) in
    let j := if (i <? 0)%Z then (n + i)%Z else i in
    if ((0 <=? j) && (j <? n))%Z
    then match l !! Z.to_nat j with
         | Some v => ret v
         | None => raise (PyExc "IndexError" (PInt i))
         end
    else raise (PyExc "IndexError" (PInt i)) in
  match o with
  | PList l => at_ l
  | PTuple l => at_ l
  | PStr s => at_ (map (fun c => PStr (String c EmptyString)) (list_ascii_of_string s))
  | PRef r =>
      fun w =>
        match heap w !! r with
        | Some (ODict _) => raise (PyExc "KeyError" (PInt i)) w
        | _ => ext "__getitem__" [o; PInt i] [] w
        end
  | _ => raise (PyExc "TypeError" (PStr "subscript"))
  end.

Definition as_int (v : pyval) : option Z :=
  match v with
  | PInt z => Some z
  | PBool b => Some (Z.b2z b)
  | _ => None
  end.

Definition is_ref (v : pyval) : bool :=
  match v with PRef _ => true | _ => false end.

(** [a - b]: integers subtract; an object operand dispatches to the
    environment. *)
Definition py_sub (a b : pyval) : M pyval :=
  match as_int a, as_int b with
  | Some x, Some y => ret (PInt (x - y))
  | _, _ =>
      if is_ref a || is_ref b
      then ext "__sub__" [a; b] []
      else raise (PyExc "TypeError" (PStr "unsupported operand"))
  end.

(** [x, y = v]: the items of [v] must be two. *)
Definition pair_of (l : list pyval) : M (pyval * pyval) :=
  match l with
  | [a; b] => ret (a, b)
  | _ => raise (PyExc "ValueError" (PStr "unpack"))
  end.

Definition unpack2 (v : pyval) : M (pyval * pyval) :=
  match v with
  | PList l => pair_of l
  | PTuple l => pair_of l
  | PStr s => pair_of (map (fun c => PStr (String c EmptyString)) (list_ascii_of_string s))
  | PRef _ =>
      items <- ext "__iter__" [v] [] ;;
      match items with
      | PList l => pair_of l
      | PTuple l => pair_of l
      | _ => raise (PyExc "TypeError" (PStr "unpack"))
      end
  | _ => raise (PyExc "TypeError" (PStr "unpack"))
  end.

(** Module attributes and imports are resolved by the environment. *)
Definition import_ (module : string) : M pyval :=
  ext "__import__" [PStr module] [].

Definition getattr_ (path : string) : M pyval :=
  ext "__getattr__" [PStr path] [].

Definition setattr_ (path : string) (v : pyval) : M unit :=
  ext "__setattr__" [PStr path; v] [] ;; ret tt.

(** ** The analysis functions, EcoliPPP cell 6 *)

(** [pathway(bg,phi,chemostats,flowstats=[],computePhi=False,verbose=False)].
    [energetics] is a global name that no cell defines; the environment
    resolves it. *)
Definition pathway (bg phi : pyval) (chemostats flowstats : list string)
    (computePhi verbose : bool) : M (pyval * pyval * pyval * pyval) :=
  print_ [PStr "Chemostats:"; strs (sorted chemostats)] ;;
  print_ [PStr "Flowstats:"; strs (sorted flowstats)] ;;
  s <- ext "st.stoich" [bg] [("quiet", PBool true)] ;;
  sc <- ext "st.statify" [s]
          [("chemostats", strs chemostats); ("flowstats", strs flowstats)] ;;
  sp <- ext "st.path" [s; sc] [] ;;
  (if verbose
   then for_each (sorted chemostats) (fun stat => print_ [PStr (ch stat +:+ ",")])
   else ret tt) ;;
  if computePhi
  then
    r <- ext "energetics" [s; sp; phi] [] ;;
    pr <- unpack2 r ;;
    let '(Phi, Phip) := pr in
    let units := "~\si{" +:+ String (ascii_of_nat 11) "olt}" in
    t <- ext "st.sprintp" [sc] [] ;;
    print_ [t] ;;
    l <- ext "st.sprintrl" [sp]
           [("chemformula", PBool true); ("Phi", Phip); ("showMu", PBool showMu)] ;;
    ext "disp.Latex" [l] [] ;;
    ret (s, sc, sp, Phip)
  else
    l <- ext "st.sprintrl" [sp] [("chemformula", PBool true)] ;;
    print_ [l] ;;
    let Phip := PInt 0 in
    ret (s, sc, sp, Phip).

(** [Pathway(S,chemostats,flowstats=[],verbose=False)]. *)
Definition Pathway (S : pyval) (chemostats flowstats : list string)
    (verbose : bool) : M (pyval * pyval * pyval) :=
  print_ [PStr "Chemostats:"; strs (sorted chemostats)] ;;
  print_ [PStr "Flowstats:"; strs (sorted flowstats)] ;;
  s <- copy_copy S ;;
  sc <- ext "st.statify" [s]
          [("chemostats", strs chemostats); ("flowstats", strs flowstats)] ;;
  sp <- ext "st.path" [s; sc] [] ;;
  (if verbose
   then for_each (sorted chemostats) (fun stat => print_ [PStr (ch stat +:+ ",")])
   else ret tt) ;;
  l <- ext "st.sprintrl" [sp] [("chemformula", PBool true)] ;;
  print_ [l] ;;
  ret (s, sc, sp).

(** ** The EcoliPPP notebook, cell by cell

    Cell 1 sets [ast_node_interactivity] to ["all"], so every expression
    statement at the top level of a cell is displayed. *)
Definition EcoliPPP_notebook : M unit :=
  (* cell 1 *)
  import_ "numpy" ;;
  import_ "scipy" ;;
  import_ "BondGraphTools" ;;
  st <- import_ "stoich" ;;
  import_ "CobraExtract" ;;
  import_ "stoichBondGraph" ;;
  import_ "phiData" ;;
  import_ "scipy.constants" ;;
  pc <- getattr_ "con.physical_constants" ;;
  fc <- getitem pc "Faraday constant" ;;
  F <- getindex fc 0 ;;
  import_ "IPython.display" ;;
  import_ "copy" ;;
  import_ "IPython.core.interactiveshell" ;;
  setattr_ "InteractiveShell.ast_node_interactivity" (PStr "all") ;;
  import_ "importlib" ;;
  (* cell 2 *)
  sm <- ext "Extract.extract" []
          [("cobraname", PStr "textbook"); ("Remove", strs ["_C"; "__"]);
           ("negReaction", strs ["RPI"; "PGK"; "PGM"; "SUCOAS"]);
           ("quiet", PBool quiet)] ;;
  r <- getitem sm "reaction" ;;
  print_ [r] ;;
  (* cell 3 *)
  let name := "GlyPPP_abg" in
  let reaction := GlyPPP_reaction in
  sGlyPPP <- ext "Extract.choose" [sm] [("reaction", strs reaction)] ;;
  setitem sGlyPPP "name" (PStr name) ;;
  v <- ext "stbg.model" [sGlyPPP] [] ;;
  display v ;;
  (* cell 4 *)
  import_ "GlyPPP_abg" ;;
  m <- ext "GlyPPP_abg.model" [] [] ;;
  S <- ext "st.stoich" [m] [("quiet", PBool quiet)] ;;
  (* cell 5 *)
  t <- ext "st.sprintrl" [sGlyPPP] [("chemformula", PBool true)] ;;
  v <- ext "disp.Latex" [t] [] ;;
  display v ;;
  (* cell 8 *)
  v <- ext "imp.reload" [st] [] ;;
  display v ;;
  print_ [PStr "R5P and NADPH generation"] ;;
  let chemostats := Chemostats "G6P" (Some ["R5P"]) in
  let flowstats := ["PGI"; "TKT2"] in
  r <- Pathway S chemostats flowstats false ;;
  let '(s, sc, sp) := r in
  t <- ext "st.sprintrl" [sp] [("chemformula", PBool true)] ;;
  v <- ext "disp.Latex" [t] [] ;;
  display v ;;
  (* cell 9 *)
  print_ [PStr "R5P generation"] ;;
  let chemostats := Chemostats "G6P" (Some ["R5P"]) in
  let flowstats := ["G6PDH2R"] in
  r <- Pathway S chemostats flowstats false ;;
  let '(s, sc, sp) := r in
  t <- ext "st.sprintrl" [sp] [("chemformula", PBool true)] ;;
  v <- ext "disp.Latex" [t] [] ;;
  display v ;;
  (* cell 10 *)
  print_ [PStr "NADPH generation"] ;;
  let chemostats := Chemostats "G6P" Chemostats_default_end in
  let flowstats := [] in
  r <- Pathway S chemostats flowstats false ;;
  let '(s, sc, sp) := r in
  t <- ext "st.sprintrl" [sp] [("chemformula", PBool true)] ;;
  v <- ext "disp.Latex" [t] [] ;;
  display v ;;
  ret tt.

(** ** The ModularEcoli notebook, cell by cell

    Jupyter's default applies here: only the last expression statement of
    a cell is displayed.  [chemostats.extend(chemostats0)] and
    [reaction.extend(...)] are list appends. *)
Definition ModularEcoli_notebook : M unit :=
  (* cell 1 *)
  import_ "BondGraphTools" ;;
  import_ "numpy" ;;
  import_ "IPython.display" ;;
  import_ "stoich" ;;
  import_ "stoichBondGraph" ;;
  import_ "modularBondGraph" ;;
  import_ "CobraExtract" ;;
  (* Extract full ecoli core model *)
  sm <- ext "Extract.extract" []
          [("Remove", strs ["_C"; "__"]);
           ("negReaction", strs ["RPI"; "PGK"; "PGM"; "SUCOAS"; "FRD7"]);
           ("quiet", PBool quiet)] ;;
  (* Extract Glycolysis *)
  let reaction :=
    ["GLCPTS"; "PGI"; "PFK"; "FBP"; "FBA"; "TPI"; "GAPD"; "PGK"; "PGM"; "ENO"; "PYK"] in
  s0 <- ext "Extract.choose" [sm] [("reaction", strs reaction)] ;;
  print_ [PStr "Reactions:"; strs reaction] ;;
  t <- ext "st.sprintrl" [s0] [("chemformula", PBool true)] ;;
  v <- ext "disp.Latex" [t] [] ;;
  display v ;;
  setitem s0 "name" (PStr "GLY_abg") ;;
  ext "stbg.model" [s0] [] ;;
  import_ "GLY_abg" ;;
  m <- ext "GLY_abg.model" [] [] ;;
  s <- ext "st.stoich" [m] [("quiet", PBool true)] ;;
  a <- getitem s "N" ;;
  b <- getitem s0 "N" ;;
  d <- py_sub a b ;;
  err <- ext "np.linalg.norm" [d] [] ;;
  print_ [PStr "Error:"; err] ;;
  (* Glycolysis: pathway analysis *)
  let chemostats0 := ["ADP"; "ATP"; "H2O"; "PI"; "H"] in
  sc0 <- ext "st.statify" [s] [("chemostats", strs chemostats0)] ;;
  let chemostats := ["GLCD_E"; "PYR"; "NAD"; "NADH"] in
  let chemostats := chemostats ++ chemostats0 in
  sc <- ext "st.statify" [s] [("chemostats", strs chemostats)] ;;
  t <- ext "st.sprintp" [sc] [] ;;
  print_ [t] ;;
  sp <- ext "st.path" [s; sc] [] ;;
  t <- ext "st.sprintrl" [sp] [("chemformula", PBool true)] ;;
  v <- ext "disp.Latex" [t] [] ;;
  display v ;;
  (* Extract TCA part of full model *)
  let reaction :=
    ["CS"; "ACONTA"; "ACONTB"; "ICDHYR"; "AKGDH"; "SUCOAS";
     "FRD7";
     "SUCDI"; "FUM"; "MDH";
     "NADTRHD"] in
  s0 <- ext "Extract.choose" [sm] [("reaction", strs reaction)] ;;
  t <- ext "st.sprintrl" [s0] [("chemformula", PBool true)] ;;
  v <- ext "disp.Latex" [t] [] ;;
  display v ;;
  setitem s0 "name" (PStr "TCA_abg") ;;
  ext "stbg.model" [s0] [] ;;
  import_ "TCA_abg" ;;
  m <- ext "TCA_abg.model" [] [] ;;
  s <- ext "st.stoich" [m] [("quiet", PBool true)] ;;
  a <- getitem s "N" ;;
  b <- getitem s0 "N" ;;
  d <- py_sub a b ;;
  err <- ext "np.linalg.norm" [d] [] ;;
  print_ [PStr "Error:"; err] ;;
  (* TCA: pathway analysis *)
  print_ [PStr "No chemostats"] ;;
  t <- ext "st.sprintp" [s] [] ;;
  print_ [t] ;;
  let chemostats0 := ["ADP"; "ATP"; "H2O"; "NAD"; "NADH"; "PI"; "H";
                      "Q8"; "Q8H2"] in
  sc0 <- ext "st.statify" [s] [("chemostats", strs chemostats0)] ;;
  print_ [PStr "Basic chemostats"; strs chemostats0] ;;
  t <- ext "st.sprintp" [sc0] [] ;;
  print_ [t] ;;
  let chemostats := ["ACCOA"; "COA"; "CO2"] in
  let chemostats := chemostats ++ chemostats0 in
  sc <- ext "st.statify" [s] [("chemostats", strs chemostats)] ;;
  print_ [PStr "Chemostats"; strs chemostats] ;;
  t <- ext "st.sprintp" [sc] [] ;;
  print_ [t] ;;
  sp0 <- ext "st.path" [s; sc0] [] ;;
  t <- ext "st.sprintrl" [sp0] [("chemformula", PBool true); ("split", PInt 10)] ;;
  v <- ext "disp.Latex" [t] [] ;;
  display v ;;
  sp <- ext "st.path" [s; sc] [] ;;
  t <- ext "st.sprintrl" [sp] [("chemformula", PBool true); ("split", PInt 10)] ;;
  v <- ext "disp.Latex" [t] [] ;;
  display v ;;
  (* Include Pyruvate reactions: PDH and PFL *)
  let reaction := reaction ++ ["PDH"; "PFL"] in
  s0 <- ext "Extract.choose" [sm] [("reaction", strs reaction)] ;;
  t <- ext "st.sprintrl" [s0] [("chemformula", PBool true)] ;;
  v <- ext "disp.Latex" [t] [] ;;
  display v ;;
  setitem s0 "name" (PStr "PyrTCA_abg") ;;
  ext "stbg.model" [s0] [] ;;
  import_ "PyrTCA_abg" ;;
  m <- ext "PyrTCA_abg.model" [] [] ;;
  s <- ext "st.stoich" [m] [("quiet", PBool true)] ;;
  a <- getitem s "N" ;;
  b <- getitem s0 "N" ;;
  d <- py_sub a b ;;
  err <- ext "np.linalg.norm" [d] [] ;;
  print_ [PStr "Error:"; err] ;;
  (* PyrTCA: pathway analysis *)
  print_ [PStr "No chemostats"] ;;
  t <- ext "st.sprintp" [s] [("removeSingle", PBool true)] ;;
  print_ [t] ;;
  let chemostats0 := ["ADP"; "ATP"; "H2O"; "NAD"; "NADH"; "PI"; "NADP"; "NADPH"; "H";
                      "Q8"; "Q8H2"; "FOR"] in
  sc0 <- ext "st.statify" [s] [("chemostats", strs chemostats0)] ;;
  print_ [PStr "Basic chemostats"; strs chemostats0] ;;
  t <- ext "st.sprintp" [sc0] [("removeSingle", PBool true)] ;;
  print_ [t] ;;
  let chemostats := ["PYR"; "CO2"] in
  let chemostats := chemostats ++ chemostats0 in
  sc <- ext "st.statify" [s] [("chemostats", strs chemostats)] ;;
  print_ [PStr "Chemostats:"; PStr (printChem chemostats)] ;;
  t <- ext "st.sprintp" [sc] [("removeSingle", PBool true)] ;;
  print_ [t] ;;
  sp <- ext "st.path" [s; sc] [] ;;
  t <- ext "st.sprintrl" [sp] [("chemformula", PBool true); ("split", PInt 10)] ;;
  v <- ext "disp.Latex" [t] [] ;;
  display v ;;
  (* Extract the Electron Transport Chain *)
  let reaction := ["NADH16"; "CYTBD"] in
  s0 <- ext "Extract.choose" [sm] [("reaction", strs reaction)] ;;
  t <- ext "st.sprintrl" [s0] [("chemformula", PBool true)] ;;
  v <- ext "disp.Latex" [t] [] ;;
  display v ;;
  setitem s0 "name" (PStr "ETC_abg") ;;
  ext "stbg.model" [s0] [] ;;
  import_ "ETC_abg" ;;
  m <- ext "ETC_abg.model" [] [] ;;
  s <- ext "st.stoich" [m] [("quiet", PBool true)] ;;
  a <- getitem s "N" ;;
  b <- getitem s0 "N" ;;
  d <- py_sub a b ;;
  err <- ext "np.linalg.norm" [d] [] ;;
  print_ [PStr "Error:"; err] ;;
  r <- getitem s0 "reaction" ;;
  setitem s "reaction" r ;;
  (* ETC: pathway analysis *)
  print_ [PStr "No chemostats"] ;;
  t <- ext "st.sprintp" [s] [] ;;
  print_ [t] ;;
  let chemostats := ["NADH"; "NAD"; "O2"; "H2O"; "H"; "H_E"] in
  sc <- ext "st.statify" [s] [("chemostats", strs chemostats)] ;;
  print_ [PStr "Chemostats"; strs chemostats] ;;
  t <- ext "st.sprintp" [sc] [] ;;
  print_ [t] ;;
  sp <- ext "st.path" [s; sc] [] ;;
  t <- ext "st.sprintrl" [sp] [("chemformula", PBool true)] ;;
  v <- ext "disp.Latex" [t] [] ;;
  display v ;;
  (* Extract ATPase *)
  let reaction := ["ATPS4R"] in
  s0 <- ext "Extract.choose" [sm] [("reaction", strs reaction)] ;;
  t <- ext "st.sprintrl" [s0] [("chemformula", PBool true)] ;;
  v <- ext "disp.Latex" [t] [] ;;
  display v ;;
  setitem s0 "name" (PStr "ATP_abg") ;;
  ext "stbg.model" [s0] [] ;;
  import_ "ATP_abg" ;;
  m <- ext "ATP_abg.model" [] [] ;;
  s <- ext "st.stoich" [m] [("quiet", PBool true)] ;;
  a <- getitem s "N" ;;
  b <- getitem s0 "N" ;;
  d <- py_sub a b ;;
  err <- ext "np.linalg.norm" [d] [] ;;
  print_ [PStr "Error:"; err] ;;
  r <- getitem s0 "reaction" ;;
  setitem s "reaction" r ;;
  (* ATPase: pathway analysis *)
  print_ [PStr "No chemostats"] ;;
  t <- ext "st.sprintp" [s] [] ;;
  print_ [t] ;;
  let chemostats := ["H"; "H_E"; "ATP"; "ADP"; "PI"; "H2O"] in
  sc <- ext "st.statify" [s] [("chemostats", strs chemostats)] ;;
  print_ [PStr "Chemostats"; strs chemostats] ;;
  t <- ext "st.sprintp" [sc] [("removeSingle", PBool false)] ;;
  print_ [t] ;;
  sp <- ext "st.path" [s; sc] [("removeSingle", PBool false)] ;;
  t <- ext "st.sprintrl" [sp] [("chemformula", PBool true)] ;;
  v <- ext "disp.Latex" [t] [] ;;
  display v ;;
  (* Modularity: the Glycolysis/TCA network *)
  GlyTCA <- ext "bgt.new" [] [("name", PStr "GlyTCA")] ;;
  Gly <- ext "GLY_abg.model" [] [] ;;
  TCA <- ext "PyrTCA_abg.model" [] [] ;;
  v <- ext ".add" [GlyTCA; Gly; TCA] [] ;;
  display v ;;
  let common := ["PYR"; "ATP"; "ADP"; "PI"; "H"; "NAD"; "NADH"; "H2O"] in
  print_ [PStr "Common species:"; PStr ("{" +:+ printChem common +:+ "}")] ;;
  v <- ext "mbg.unify" [GlyTCA] [("common", strs common); ("quiet", PBool quiet)] ;;
  display v ;;
  s <- ext "st.stoich" [GlyTCA] [("quiet", PBool true)] ;;
  setitem s "name" (PStr "GlyTCA_abg") ;;
  ext "stbg.model" [s] [] ;;
  import_ "GlyTCA_abg" ;;
  (* GlyTCA: pathway analysis *)
  let chemostats0 := ["ADP"; "ATP"; "H2O"; "NAD"; "NADH"; "PI"; "H";
                      "Q8"; "Q8H2"; "FOR"] in
  let chemostats := ["GLCD_E"; "CO2"] in
  let chemostats := chemostats ++ chemostats0 in
  sc <- ext "st.statify" [s] [("chemostats", strs chemostats)] ;;
  print_ [PStr "Chemostats:"; PStr (printChem chemostats)] ;;
  t <- ext "st.sprintp" [sc] [] ;;
  print_ [t] ;;
  sp <- ext "st.path" [s; sc] [] ;;
  t <- ext "st.sprintrl" [sp] [("chemformula", PBool true)] ;;
  v <- ext "disp.Latex" [t] [] ;;
  display v ;;
  (* Modularity: metabolism *)
  Met <- ext "bgt.new" [] [("name", PStr "Met")] ;;
  GlyTCA <- ext "GlyTCA_abg.model" [] [] ;;
  ETC <- ext "ETC_abg.model" [] [] ;;
  ATP <- ext "ATP_abg.model" [] [] ;;
  v <- ext ".add" [Met; GlyTCA; ETC; ATP] [] ;;
  display v ;;
  let common := ["ATP"; "ADP"; "PI"; "H"; "H_E"; "NAD"; "NADH"; "H2O"; "Q8"; "Q8H2"] in
  print_ [PStr "Common species:"; PStr ("{" +:+ printChem common +:+ "}")] ;;
  v <- ext "mbg.unify" [Met] [("common", strs common); ("quiet", PBool true)] ;;
  display v ;;
  (* Metabolism: pathway analysis *)
  s <- ext "st.stoich" [Met] [("quiet", PBool true)] ;;
  t <- ext "st.sprintrl" [s] [("chemformula", PBool true)] ;;
  v <- ext "disp.Latex" [t] [] ;;
  display v ;;
  let chemostats0 := ["ADP"; "ATP"; "H2O"; "PI"; "H"] in
  let chemostats := ["GLCD_E"; "CO2"; "O2"] in
  let chemostats := chemostats ++ chemostats0 in
  sc <- ext "st.statify" [s] [("chemostats", strs chemostats)] ;;
  print_ [PStr "Chemostats:"; PStr (printChem chemostats)] ;;
  t <- ext "st.sprintp" [sc] [] ;;
  print_ [t] ;;
  sp <- ext "st.path" [s; sc] [] ;;
  t <- ext "st.sprintrl" [sp] [("chemformula", PBool true)] ;;
  v <- ext "disp.Latex" [t] [] ;;
  display v ;;
  ret tt.

(** ** Specifications *)

(** A notebook session starts with nothing printed and nothing called. *)
Definition session (h : list obj) (st : Lib) : World :=
  {| heap := h; lib := st; out := []; log := [] |}.

(** The library calls on record when a computation ends. *)
Definition calls_made {A} (m : M A) (w : World) : list Event :=
  library_calls (log (snd (m w))).

(** *** Worlds that the libraries cannot tell apart *)

(** Two worlds with the same heap and library state and, when [with_log]
    is set, the same call log.  What was printed is never compared. *)
Definition alike (with_log : bool) (w1 w2 : World) : Prop :=
  heap w1 = heap w2 /\ lib w1 = lib w2 /\
  (if with_log then log w1 = log w2 else True).

(** A computation whose result and whose effect on heap and libraries are
    determined by its arguments, the heap and the library state. *)
Definition uniform (with_log : bool) {A} (m : M A) : Prop :=
  forall w1 w2, alike with_log w1 w2 ->
    fst (m w1) = fst (m w2) /\ alike with_log (snd (m w1)) (snd (m w2)).

(** Two outcomes that differ at most in what was printed. *)
Definition same_but_output {A} (x y : result A * World) : Prop :=
  fst x = fst y /\ alike true (snd x) (snd y).

(** *** The analysis functions as glue *)

(** The pathway analysis as the specification words it: the copy, the
    statified stoichiometry of the copy, the path of both. *)
Definition Pathway_spec (S : pyval) (chemostats flowstats : list string)
    : M (pyval * pyval * pyval) :=
  s <- copy_copy S ;;
  sc <- ext "st.statify" [s]
          [("chemostats", strs chemostats); ("flowstats", strs flowstats)] ;;
  sp <- ext "st.path" [s; sc] [] ;;
  ret (s, sc, sp).

Definition pathway_spec (bg : pyval) (chemostats flowstats : list string)
    : M (pyval * pyval * pyval * pyval) :=
  s <- ext "st.stoich" [bg] [("quiet", PBool true)] ;;
  sc <- ext "st.statify" [s]
          [("chemostats", strs chemostats); ("flowstats", strs flowstats)] ;;
  sp <- ext "st.path" [s; sc] [] ;;
  ret (s, sc, sp, PInt 0).

(** Typesetting the reduced stoichiometry for printing: the one further
    library call both functions make before they return. *)
Definition typeset (sp : pyval) : M pyval :=
  ext "st.sprintrl" [sp] [("chemformula", PBool true)].

Definition Pathway_glue (S : pyval) (chemostats flowstats : list string)
    : M (pyval * pyval * pyval) :=
  t <- Pathway_spec S chemostats flowstats ;;
  typeset (snd t) ;;
  ret t.

Definition pathway_glue (bg : pyval) (chemostats flowstats : list string)
    : M (pyval * pyval * pyval * pyval) :=
  t <- pathway_spec bg chemostats flowstats ;;
  typeset (snd (fst t)) ;;
  ret t.

(** *** Propagation of failures *)







(** *** Properties of call traces *)

(** [every_call P l]: every call of [l] satisfies [P], given the calls
    made before it and the calls made after it. *)
Definition every_call (P : list Event -> Event -> list Event -> Prop)
    (l : list Event) : Prop :=
  forall before ev after, l = before ++ ev :: after -> P before ev after.

(** The number of calls of [fn] a run that returned has made. *)
Definition completes_with {A} (fn : string) (n : nat) (r : result A)
    (l : list Event) : Prop :=
  match r with
  | Ok _ => length (List.filter (is_call fn) l) = n
  | Raise _ => True
  end.




(** Every flowstat handed to [st.statify] is among [names]. *)
Definition flowstats_among (names : list string) (ev : Event) : bool :=
  if is_call "st.statify" ev
  then match kwarg "flowstats" (ev_kwargs ev) with
       | Some (PList l) =>
           forallb (fun v => match v with PStr x => mem x names | _ => false end) l
       | Some _ => false
       | None => true
       end
  else true.










(** *** A logic for call traces

    Traces are built newest call first.  [all_steps Q R]: every call of
    [R] satisfies [Q], given the calls made before it. *)
Fixpoint all_steps (Q : list Event -> Event -> Prop) (R : list Event) : Prop :=
  match R with
  | [] => True
  | ev :: older => Q older ev /\ all_steps Q older
  end.

(** [traces Q F R m]: from a world in which the library calls [R] have
    been made, each satisfying [Q], whatever the libraries do, every call
    on record when [m] ends satisfies [Q], and the result of [m] and the
    calls on record satisfy [F]. *)
Definition traces {A} (Q : list Event -> Event -> Prop)
    (F : result A -> list Event -> Prop) (R : list Event) (m : M A) : Prop :=
  forall w, library_calls (log w) = rev R -> all_steps Q R ->
    exists R', library_calls (log (snd (m w))) = rev R' /\
      all_steps Q R' /\ F (fst (m w)) R'.

(** A computation that adds no library call to the log. *)
Definition quiet_step {A} (m : M A) : Prop :=
  forall w, library_calls (log (snd (m w))) = library_calls (log w).

(** A computation that moreover cannot fail. *)
Definition silent_step {A} (m : M A) : Prop :=
  forall w, exists a w', m w = (Ok a, w') /\
    library_calls (log w') = library_calls (log w).




Definition holds_step (f : Event -> bool) (older : list Event) (ev : Event) : Prop :=
  f ev = true.


(** *** The frame of a library call *)

(** The references a value holds. *)
Fixpoint refs (v : pyval) : list nat :=
  match v with
  | PRef r => [r]
  | PList l => flat_map refs l
  | PTuple l => flat_map refs l
  | _ => []
  end.

Definition handed (args : list pyval) (kw : list (string * pyval)) : list nat :=
  flat_map refs (args ++ map snd kw).

(** A library that changes no object it was not handed: an object that
    exists and is not referred to by the arguments of a call is the same
    after the call, and every reference in what the call returns is one
    it was handed or is to an object that did not exist before. *)
Definition respects_frame : Prop :=
  forall fn args kw h st r h' st',
    call fn args kw h st = (r, h', st') ->
    (forall l o, h !! l = Some o -> ~ In l (handed args kw) -> h' !! l = Some o) /\
    (forall v l, r = Ok v -> In l (refs v) -> In l (handed args kw) \/ length h <= l).

(** The first value of a result is the second, when there is one. *)
Definition returns_as {A} (r spec : result A) : Prop :=
  match r with
  | Ok t => spec = Ok t
  | Raise _ => True
  end.

(** *** More properties of runs and traces *)


(** What [disp.Latex] is given is what the call of [st.sprintrl] just
    before it returned. *)
Definition latex_shows_typeset (before : list Event) (ev : Event)
    (after : list Event) : Prop :=
  if is_call "disp.Latex" ev
  then exists pre prev t,
         before = pre ++ [prev] /\ ev_fn prev = "st.sprintrl" /\
         ev_res prev = Ok t /\ ev_args ev = [t]
  else True.

Definition latex_step (older : list Event) (ev : Event) : Prop :=
  if is_call "disp.Latex" ev
  then match older with
       | prev :: _ =>
           ev_fn prev = "st.sprintrl" /\
           exists t, ev_res prev = Ok t /\ ev_args ev = [t]
       | [] => False
       end
  else True.

(** [st.stoich] returned [s]. *)
Definition stoich_of (s : pyval) (ev : Event) : Prop :=
  ev_fn ev = "st.stoich" /\ ev_res ev = Ok s.

(** [st.statify] is applied to a record that [st.stoich] returned
    earlier. *)
Definition statify_follows_stoich (before : list Event) (ev : Event)
    (after : list Event) : Prop :=
  if is_call "st.statify" ev
  then exists s, ev_args ev = [s] /\ Exists (stoich_of s) before
  else True.

Definition stoich_step (older : list Event) (ev : Event) : Prop :=
  statify_follows_stoich older ev [].

(** [Extract.extract] returned [sm]. *)
Definition extract_of (sm : pyval) (ev : Event) : Prop :=
  ev_fn ev = "Extract.extract" /\ ev_res ev = Ok sm.

(** [Extract.choose] is applied to a model that [Extract.extract]
    returned earlier, with a list of names as [reaction]. *)
Definition choose_follows_extract (before : list Event) (ev : Event)
    (after : list Event) : Prop :=
  if is_call "Extract.choose" ev
  then exists sm,
         ev_args ev = [sm] /\ Exists (extract_of sm) before /\
         match kwarg "reaction" (ev_kwargs ev) with
         | Some v => is_str_list v = true
         | None => False
         end
  else True.

Definition choose_step (older : list Event) (ev : Event) : Prop :=
  choose_follows_extract older ev [].

(** * Results that hold for every library *)

(** ** The trace logic *)

Lemma library_calls_app (l1 l2 : list Event) :
  library_calls (l1 ++ l2) = library_calls l1 ++ library_calls l2.
Proof. apply List.filter_app. Qed.

Lemma traces_session {A} Q (F : result A -> list Event -> Prop) (m : M A) h st :
  traces Q F [] m ->
  exists R, calls_made m (session h st) = rev R /\ all_steps Q R /\
    F (fst (m (session h st))) R.
Proof. intros H. apply H; [reflexivity | exact I]. Qed.

Lemma traces_ret {A} Q (F : result A -> list Event -> Prop) R (a : A) :
  F (Ok a) R -> traces Q F R (ret a).
Proof. intros HF w Hw HQ. exists R. auto. Qed.

Lemma traces_bind_assoc {A B C} Q (F : result C -> list Event -> Prop) R
    (m : M A) (f : A -> M B) (g : B -> M C) :
  traces Q F R (bind m (fun x => bind (f x) g)) -> traces Q F R (bind (bind m f) g).
Proof.
  intros H w Hw HQ. specialize (H w Hw HQ). unfold bind in *.
  destruct (m w) as [[a|e] w1]; exact H.
Qed.

(** A call of a named library function: the run may end there with the
    call on record as raising, or go on with the call on record as
    returning. *)
Lemma traces_call {A} Q (F : result A -> list Event -> Prop) R fn args kw
    (k : pyval -> M A) :
  is_operator fn = false ->
  (forall r, Q R (Ev fn args kw r)) ->
  (forall e, F (Raise e) (Ev fn args kw (Raise e) :: R)) ->
  (forall v, traces Q F (Ev fn args kw (Ok v) :: R) (k v)) ->
  traces Q F R (bind (ext fn args kw) k).
Proof.
  intros Hop Hstep Hexit Hk w Hw HQ. unfold bind, ext.
  destruct (call fn args kw (heap w) (lib w)) as [[[v|e] h] st].
  - apply Hk.
    + simpl. rewrite library_calls_app, Hw. simpl. now rewrite Hop.
    + split; [apply Hstep | exact HQ].
  - exists (Ev fn args kw (Raise e) :: R). simpl. split; [|split].
    + rewrite library_calls_app, Hw. simpl. now rewrite Hop.
    + split; [apply Hstep | exact HQ].
    + apply Hexit.
Qed.

Lemma traces_quiet {A B} Q (F : result B -> list Event -> Prop) R
    (m : M A) (k : A -> M B) :
  quiet_step m -> (forall e, F (Raise e) R) -> (forall a, traces Q F R (k a)) ->
  traces Q F R (bind m k).
Proof.
  intros Hq Hexit Hk w Hw HQ. unfold bind. specialize (Hq w).
  destruct (m w) as [[a|e] w1]; simpl in Hq.
  - apply Hk; [now rewrite Hq | exact HQ].
  - exists R. simpl. rewrite Hq. auto.
Qed.

Lemma traces_silent {A B} Q (F : result B -> list Event -> Prop) R
    (m : M A) (k : A -> M B) :
  silent_step m -> (forall a, traces Q F R (k a)) -> traces Q F R (bind m k).
Proof.
  intros Hs Hk w Hw HQ. unfold bind. destruct (Hs w) as (a & w1 & E & Hl).
  rewrite E. apply Hk; [now rewrite Hl | exact HQ].
Qed.

Lemma silent_print args : silent_step (print_ args).
Proof. intros w. now exists tt, (snd (print_ args w)). Qed.

Lemma silent_display v : silent_step (display v).
Proof. intros w. exists tt, (snd (display v w)). now destruct v. Qed.

Lemma silent_ret {A} (a : A) : silent_step (ret a).
Proof. intros w. now exists a, w. Qed.

Lemma quiet_ext_op fn args kw :
  is_operator fn = true -> quiet_step (ext fn args kw).
Proof.
  intros Hop w. unfold ext.
  destruct (call fn args kw (heap w) (lib w)) as [[r h] st]. simpl.
  rewrite library_calls_app. simpl. rewrite Hop. apply app_nil_r.
Qed.

Lemma quiet_copy_copy v : quiet_step (copy_copy v).
Proof.
  intros w. destruct v; try reflexivity. simpl.
  destruct (heap w !! r) as [[d|]|]; try reflexivity; now apply quiet_ext_op.
Qed.

Lemma quiet_getitem o key : quiet_step (getitem o key).
Proof.
  intros w. destruct o; try reflexivity. simpl.
  destruct (heap w !! r) as [[d|]|]; try (now apply quiet_ext_op).
  now destruct (d !! key).
Qed.

Lemma quiet_setitem o key v : quiet_step (setitem o key v).
Proof.
  intros w. destruct o; try reflexivity. simpl.
  destruct (heap w !! r) as [[d|]|]; try reflexivity;
    unfold bind;
    pose proof (quiet_ext_op "__setitem__" [PRef r; PStr key; v] [] eq_refl w) as H;
    destruct (ext "__setitem__" [PRef r; PStr key; v] [] w) as [[a|e] w1]; exact H.
Qed.

Lemma quiet_getindex o i : quiet_step (getindex o i).
Proof.
  intros w. unfold getindex.
  destruct o; try reflexivity;
    try (destruct (_ && _); [destruct (_ !! _)|]; reflexivity).
  destruct (heap w !! r) as [[d|]|]; try reflexivity; now apply quiet_ext_op.
Qed.

Lemma quiet_py_sub a b : quiet_step (py_sub a b).
Proof.
  intros w. unfold py_sub.
  destruct (as_int a), (as_int b); try reflexivity;
    destruct (is_ref a || is_ref b); try reflexivity; now apply quiet_ext_op.
Qed.

(** Checks: evaluate, then name the earlier calls asked for. *)
Ltac find_call tac :=
  lazymatch goal with
  | |- Exists _ (_ :: _) =>
      first [ apply Exists_cons_hd; solve [tac] | apply Exists_cons_tl; find_call tac ]
  end.

Ltac check_prop :=
  repeat match goal with
    | H : Raise _ = Ok _ |- _ => discriminate H
    | H : Ok _ = Ok _ |- _ => injection H as <-
    | |- True => exact I
    | |- _ /\ _ => split
    | |- exists _, _ => eexists
    | |- _ = _ => reflexivity
    | |- _ <> _ => discriminate
    | |- forall _, _ => intro
    | |- Exists _ _ => find_call check_prop
    end.

Ltac check := lazy; check_prop.

(** One step of a notebook. *)
Ltac trace_step :=
  lazymatch goal with
  | |- traces _ _ _ (ret _) => apply traces_ret; check
  | |- traces _ _ _ (bind (bind _ _) _) => apply traces_bind_assoc
  | |- traces _ _ _ (bind (ext _ _ _) _) =>
      first [ apply traces_quiet;
                [apply quiet_ext_op; reflexivity | intros ?e; check | intros ?v]
            | apply traces_call;
                [reflexivity | intros ?r; check | intros ?e; check | intros ?v] ]
  | |- traces _ _ _ (bind (print_ _) _) =>
      apply traces_silent; [apply silent_print | intros _]
  | |- traces _ _ _ (bind (display _) _) =>
      apply traces_silent; [apply silent_display | intros _]
  | |- traces _ _ _ (bind (ret _) _) =>
      apply traces_silent; [apply silent_ret | intros ?a]
  | |- traces _ _ _ (bind (getitem _ _) _) =>
      apply traces_quiet; [apply quiet_getitem | intros ?e; check | intros ?v]
  | |- traces _ _ _ (bind (setitem _ _ _) _) =>
      apply traces_quiet; [apply quiet_setitem | intros ?e; check | intros _]
  | |- traces _ _ _ (bind (getindex _ _) _) =>
      apply traces_quiet; [apply quiet_getindex | intros ?e; check | intros ?v]
  | |- traces _ _ _ (bind (py_sub _ _) _) =>
      apply traces_quiet; [apply quiet_py_sub | intros ?e; check | intros ?v]
  | |- traces _ _ _ (bind (copy_copy _) _) =>
      apply traces_quiet; [apply quiet_copy_copy | intros ?e; check | intros ?v]
  | |- traces _ _ _ (bind (import_ _) _) => unfold import_ at 1
  | |- traces _ _ _ (bind (getattr_ _) _) => unfold getattr_ at 1
  | |- traces _ _ _ (bind (setattr_ _ _) _) => unfold setattr_ at 1
  | |- traces _ _ _ (bind (Pathway _ _ _ _) _) => unfold Pathway at 1
  | |- traces _ _ _ (match ?a with pair _ _ => _ end) => destruct a
  end; cbv beta iota zeta.

Ltac run_trace := repeat trace_step.

(** ** From steps to whole traces *)

Lemma all_steps_split Q (R1 R2 : list Event) ev :
  all_steps Q (R1 ++ ev :: R2) -> Q R2 ev.
Proof.
  induction R1 as [|x R1 IH]; simpl; intros [H1 H2]; [exact H1 | auto].
Qed.

Lemma rev_split (R before after : list Event) ev :
  rev R = before ++ ev :: after -> R = rev after ++ ev :: rev before.
Proof.
  intros E. rewrite <- (rev_involutive R), E, rev_app_distr. simpl.
  now rewrite <- app_assoc.
Qed.

Lemma count_rev (f : Event -> bool) (R : list Event) :
  length (List.filter f (rev R)) = length (List.filter f R).
Proof.
  induction R as [|x R IH]; [reflexivity|].
  simpl. rewrite List.filter_app, length_app, IH. simpl.
  destruct (f x); simpl; lia.
Qed.

Lemma completes_rev {A} fn n (r : result A) (R : list Event) :
  completes_with fn n r R -> completes_with fn n r (rev R).
Proof. destruct r; simpl; [now rewrite count_rev | auto]. Qed.





(** ** The notebooks, step by step *)










(** Whatever the libraries do, once EcoliPPP has called [st.statify] it
    has handed it a flowstat that is no species of the record. *)
Lemma EcoliPPP_flowstat_is_no_species :
  traces (holds_step (fun _ => true))
    (fun r R => negb (existsb (is_call "st.statify") R)
                || existsb (fun ev => negb (flowstats_among GlyPPP_species ev)) R
                = true) []
    EcoliPPP_notebook.
Proof. unfold EcoliPPP_notebook. run_trace. Qed.

Lemma EcoliPPP_statify_gets_a_reaction h st :
  existsb (is_call "st.statify") (calls_made EcoliPPP_notebook (session h st)) = true ->
  forallb (flowstats_among GlyPPP_species)
    (calls_made EcoliPPP_notebook (session h st)) = false.
Proof.
  destruct (traces_session _ _ _ h st EcoliPPP_flowstat_is_no_species)
    as (R & -> & _ & HF).
  intros Hex. apply existsb_exists in Hex. destruct Hex as (ev & Hin & Hev).
  apply in_rev in Hin.
  assert (Hs : existsb (is_call "st.statify") R = true).
  { apply existsb_exists. now exists ev. }
  rewrite Hs in HF. simpl in HF. apply existsb_exists in HF.
  destruct HF as (ev' & Hin' & Hev').
  destruct (forallb _ (rev R)) eqn:E; [|reflexivity].
  rewrite forallb_forall in E. specialize (E ev' (proj1 (in_rev _ _) Hin')).
  now rewrite E in Hev'.
Qed.
















(** ** Independence of the print history *)

Lemma uniform_ret b {A} (a : A) : uniform b (ret a).
Proof. intros w1 w2 H. now split. Qed.

Lemma uniform_raise b {A} e : uniform b (@raise A e).
Proof. intros w1 w2 H. now split. Qed.

Lemma uniform_bind b {A B} (m : M A) (k : A -> M B) :
  uniform b m -> (forall a, uniform b (k a)) -> uniform b (bind m k).
Proof.
  intros Hm Hk w1 w2 H. destruct (Hm w1 w2 H) as [Hr Hw]. unfold bind.
  destruct (m w1) as [[a1|e1] w1'], (m w2) as [[a2|e2] w2']; simpl in *;
    try discriminate; injection Hr as <-; [now apply Hk | now split].
Qed.

Lemma uniform_ext b fn args kw : uniform b (ext fn args kw).
Proof.
  intros w1 w2 (Hh & Hl & Hlog). unfold ext. rewrite Hh, Hl.
  destruct (call fn args kw (heap w2) (lib w2)) as [[r h] st]. simpl.
  repeat split. destruct b; [now rewrite Hlog | exact I].
Qed.

Lemma uniform_print b args : uniform b (print_ args).
Proof. intros w1 w2 (Hh & Hl & Hlog). now repeat split. Qed.

Lemma uniform_display b v : uniform b (display v).
Proof. intros w1 w2 (Hh & Hl & Hlog). destruct v; now repeat split. Qed.

Lemma uniform_for_each b {A} (l : list A) (body : A -> M unit) :
  (forall x, uniform b (body x)) -> uniform b (for_each l body).
Proof.
  intros Hb. induction l as [|x l IH]; simpl.
  - apply uniform_ret.
  - apply uniform_bind; [apply Hb | intros _; exact IH].
Qed.

Lemma uniform_copy_copy b v : uniform b (copy_copy v).
Proof.
  destruct v; try apply uniform_ret.
  intros w1 w2 H. pose proof H as (Hh & Hl & Hlog). simpl. rewrite Hh.
  destruct (heap w2 !! r) as [[d|]|]; try (now apply uniform_ext).
  unfold alloc. simpl. rewrite Hh. now repeat split.
Qed.

Lemma uniform_unpack2 b v : uniform b (unpack2 v).
Proof.
  assert (Htwo : forall l, uniform b (pair_of l)).
  { intros [|a [|c [|x l]]]; first [apply uniform_ret | apply uniform_raise]. }
  destruct v; simpl; try apply uniform_raise; try apply Htwo.
  apply uniform_bind; [apply uniform_ext|].
  intros items. destruct items; try apply uniform_raise; apply Htwo.
Qed.

Ltac uniform_steps :=
  repeat first
    [ apply uniform_ret | apply uniform_ext | apply uniform_print
    | apply uniform_display | apply uniform_copy_copy | apply uniform_unpack2
    | apply uniform_for_each; intros
    | apply uniform_bind; [|intros]
    | match goal with
      | |- uniform _ (if ?c then _ else _) => destruct c
      | |- uniform _ (let '(_, _) := ?p in _) => destruct p
      end ].



(** ** Propagation of failures *)













(** ** The analysis functions are glue *)

(** Printing changes what was printed and nothing else. *)
Lemma for_each_print_run (l : list string) (f : string -> list pyval) w :
  exists o, for_each l (fun x => print_ (f x)) w =
    (Ok tt, {| heap := heap w; lib := lib w; out := o; log := log w |}).
Proof.
  revert w. induction l as [|x l IH]; intros w.
  - exists (out w). now destruct w.
  - simpl. unfold bind at 1. simpl.
    destruct (IH {| heap := heap w; lib := lib w;
                    out := out w ++ [Printed (f x)]; log := log w |}) as [o Ho].
    exists o. exact Ho.
Qed.

Lemma print_then {A} args (k : unit -> M A) w :
  bind (print_ args) k w =
  k tt {| heap := heap w; lib := lib w; out := out w ++ [Printed args]; log := log w |}.
Proof. reflexivity. Qed.

Lemma same_but_output_bind {A B} (m : M A) (k1 k2 : A -> M B) w1 w2 :
  uniform true m -> alike true w1 w2 ->
  (forall a w1' w2', alike true w1' w2' -> same_but_output (k1 a w1') (k2 a w2')) ->
  same_but_output (bind m k1 w1) (bind m k2 w2).
Proof.
  intros Hm Hw Hk. destruct (Hm w1 w2 Hw) as [Hr Hw']. unfold bind.
  destruct (m w1) as [[a1|e1] w1'], (m w2) as [[a2|e2] w2']; simpl in *;
    try discriminate; injection Hr as <-; [now apply Hk | now split].
Qed.

Lemma alike_printed w1 w2 o :
  alike true w1 w2 ->
  alike true {| heap := heap w1; lib := lib w1; out := o; log := log w1 |} w2.
Proof. intros (Hh & Hl & Hlog). now repeat split. Qed.

Lemma skip_prints {A} (l : list string) (f : string -> list pyval)
    (k : unit -> M A) w :
  exists o, bind (for_each l (fun x => print_ (f x))) k w =
    k tt {| heap := heap w; lib := lib w; out := o; log := log w |}.
Proof.
  destruct (for_each_print_run l f w) as [o Ho]. exists o.
  unfold bind. now rewrite Ho.
Qed.

Lemma Pathway_glue_run S cs fs w :
  Pathway_glue S cs fs w =
  (s <- copy_copy S ;;
   sc <- ext "st.statify" [s] [("chemostats", strs cs); ("flowstats", strs fs)] ;;
   sp <- ext "st.path" [s; sc] [] ;;
   ext "st.sprintrl" [sp] [("chemformula", PBool true)] ;;
   ret (s, sc, sp)) w.
Proof.
  unfold Pathway_glue, Pathway_spec, typeset, bind.
  destruct (copy_copy S w) as [[s|e] w1]; [|reflexivity].
  destruct (ext "st.statify" _ _ w1) as [[sc|e] w2]; [|reflexivity].
  destruct (ext "st.path" _ _ w2) as [[sp|e] w3]; reflexivity.
Qed.

Lemma pathway_glue_run bg cs fs w :
  pathway_glue bg cs fs w =
  (s <- ext "st.stoich" [bg] [("quiet", PBool true)] ;;
   sc <- ext "st.statify" [s] [("chemostats", strs cs); ("flowstats", strs fs)] ;;
   sp <- ext "st.path" [s; sc] [] ;;
   ext "st.sprintrl" [sp] [("chemformula", PBool true)] ;;
   ret (s, sc, sp, PInt 0)) w.
Proof.
  unfold pathway_glue, pathway_spec, typeset, bind.
  destruct (ext "st.stoich" _ _ w) as [[s|e] w1]; [|reflexivity].
  destruct (ext "st.statify" _ _ w1) as [[sc|e] w2]; [|reflexivity].
  destruct (ext "st.path" _ _ w2) as [[sp|e] w3]; reflexivity.
Qed.

(** The tail both functions share: optional prints of the chemostats,
    the typesetting call, the print of its result. *)
Lemma typeset_and_print {A} (verbose : bool) cs sp (t : A) w1 w2 :
  alike true w1 w2 ->
  same_but_output
    (((if verbose
       then for_each (sorted cs) (fun stat => print_ [PStr (ch stat +:+ ",")])
       else ret tt) ;;
      l <- ext "st.sprintrl" [sp] [("chemformula", PBool true)] ;;
      print_ [l] ;;
      ret t) w1)
    ((ext "st.sprintrl" [sp] [("chemformula", PBool true)] ;; ret t) w2).
Proof.
  intros H.
  assert (Hgo : forall w1', alike true w1' w2 ->
            same_but_output
              ((l <- ext "st.sprintrl" [sp] [("chemformula", PBool true)] ;;
                print_ [l] ;; ret t) w1')
              ((ext "st.sprintrl" [sp] [("chemformula", PBool true)] ;; ret t) w2)).
  { intros w1' H'. apply same_but_output_bind; [apply uniform_ext | exact H' |].
    intros l u1 u2 Hu. rewrite print_then. split; [reflexivity|].
    now apply alike_printed. }
  destruct verbose.
  - destruct (skip_prints (sorted cs) (fun stat => [PStr (ch stat +:+ ",")])
                (fun _ => l <- ext "st.sprintrl" [sp] [("chemformula", PBool true)] ;;
                          print_ [l] ;; ret t) w1) as [o Ho].
    rewrite Ho. apply Hgo. now apply alike_printed.
  - unfold bind at 1. simpl. now apply Hgo.
Qed.

Lemma Pathway_glue_returns S cs fs w :
  returns_as (fst (Pathway_glue S cs fs w)) (fst (Pathway_spec S cs fs w)).
Proof.
  unfold Pathway_glue, bind.
  destruct (Pathway_spec S cs fs w) as [[t|e] w1]; simpl; [|exact I].
  destruct (typeset (snd t) w1) as [[l|e] w2]; simpl; [reflexivity | exact I].
Qed.

Lemma pathway_glue_returns bg cs fs w :
  returns_as (fst (pathway_glue bg cs fs w)) (fst (pathway_spec bg cs fs w)).
Proof.
  unfold pathway_glue, bind.
  destruct (pathway_spec bg cs fs w) as [[t|e] w1]; simpl; [|exact I].
  destruct (typeset (snd (fst t)) w1) as [[l|e] w2]; simpl; [reflexivity | exact I].
Qed.

(** C1. [Pathway] is glue: it returns the copy of its argument, the
    statified stoichiometry of the copy and the path of both, as the
    libraries compute them, after one more library call that typesets
    the path for printing; against that sequence of calls it differs in
    nothing but what it prints.  The same holds for [pathway] without
    [computePhi], which returns the integer 0 as fourth component. *)
Theorem analysis_functions_are_glue :
  (forall S cs fs verbose w,
     same_but_output (Pathway S cs fs verbose w) (Pathway_glue S cs fs w) /\
     returns_as (fst (Pathway S cs fs verbose w)) (fst (Pathway_spec S cs fs w))) /\
  (forall bg phi cs fs verbose w,
     same_but_output (pathway bg phi cs fs false verbose w) (pathway_glue bg cs fs w) /\
     returns_as (fst (pathway bg phi cs fs false verbose w))
       (fst (pathway_spec bg cs fs w))).
Proof.
  assert (HP : forall S cs fs verbose w,
            same_but_output (Pathway S cs fs verbose w) (Pathway_glue S cs fs w));
    [|assert (Hp : forall bg phi cs fs verbose w,
            same_but_output (pathway bg phi cs fs false verbose w)
              (pathway_glue bg cs fs w));
      [|split; intros;
        [split; [apply HP | destruct (HP S cs fs verbose w) as [-> _];
                            apply Pathway_glue_returns]
        |split; [apply Hp | destruct (Hp bg phi cs fs verbose w) as [-> _];
                            apply pathway_glue_returns]]]];
    intros.
  - rewrite Pathway_glue_run. unfold Pathway. rewrite !print_then.
    apply same_but_output_bind;
      [apply uniform_copy_copy | now repeat split | intros s w1 w1' H1].
    apply same_but_output_bind; [apply uniform_ext | exact H1 | intros sc w2 w2' H2].
    apply same_but_output_bind; [apply uniform_ext | exact H2 | intros sp w3 w3' H3].
    now apply typeset_and_print.
  - rewrite pathway_glue_run. unfold pathway. rewrite !print_then.
    apply same_but_output_bind;
      [apply uniform_ext | now repeat split | intros s w1 w1' H1].
    apply same_but_output_bind; [apply uniform_ext | exact H1 | intros sc w2 w2' H2].
    apply same_but_output_bind; [apply uniform_ext | exact H2 | intros sp w3 w3' H3].
    now apply (typeset_and_print verbose cs sp (s, sc, sp, PInt 0)).
Qed.


(** ** The frame of [Pathway] *)

Lemma refs_strs (l : list string) : refs (strs l) = [].
Proof. unfold strs. simpl. induction l as [|x l IH]; [reflexivity | exact IH]. Qed.

Lemma handed_statify n cs fs :
  handed [PRef n] [("chemostats", strs cs); ("flowstats", strs fs)] = [n].
Proof.
  change (refs (PRef n) ++ refs (strs cs) ++ refs (strs fs) ++ [] = [n]).
  now rewrite !refs_strs.
Qed.

(** What a call that respects the frame leaves of an object it was not
    handed, and where the references it returns point. *)
Lemma frame_call fn args kw h st v h' st' (r : nat) o :
  respects_frame ->
  call fn args kw h st = (Ok v, h', st') ->
  h !! r = Some o -> ~ In r (handed args kw) ->
  h' !! r = Some o /\ ~ In r (refs v).
Proof.
  intros Hf Hc Hr Hn. destruct (Hf _ _ _ _ _ _ _ _ Hc) as [H1 H2].
  split; [now apply H1|].
  intros Hin. destruct (H2 v r eq_refl Hin) as [H | H]; [now apply Hn|].
  apply lookup_lt_Some in Hr. lia.
Qed.

(** C8. On a record [S], [Pathway] hands the libraries a copy: the copy
    is a new object with the entries of [S], so it is not [S]; it is the
    copy that reaches [st.statify] and [st.path]; and when the libraries
    change no object they were not handed, the entries of [S] after the
    call are those before it. *)
Theorem Pathway_leaves_its_argument (r : nat) (d : gmap string pyval)
    cs fs verbose (w : World) s sc sp (w' : World) :
  respects_frame ->
  heap w !! r = Some (ODict d) ->
  Pathway (PRef r) cs fs verbose w = (Ok (s, sc, sp), w') ->
  s = PRef (length (heap w)) /\ s <> PRef r /\
  fst (copy_copy (PRef r) w) = Ok s /\
  heap (snd (copy_copy (PRef r) w)) = heap w ++ [ODict d] /\
  heap w' !! r = Some (ODict d) /\
  exists typeset_call,
    log w' = log w ++
      [Ev "st.statify" [s] [("chemostats", strs cs); ("flowstats", strs fs)] (Ok sc);
       Ev "st.path" [s; sc] [] (Ok sp);
       typeset_call].
Proof.
  intros Hf Hr Hrun.
  assert (Hlt : r < length (heap w)) by (now apply lookup_lt_Some in Hr).
  assert (Hcopy : forall o, copy_copy (PRef r)
            {| heap := heap w; lib := lib w; out := o; log := log w |} =
            (Ok (PRef (length (heap w))),
             {| heap := heap w ++ [ODict d]; lib := lib w; out := o; log := log w |})).
  { intros o. simpl. now rewrite Hr. }
  unfold Pathway in Hrun. rewrite !print_then in Hrun.
  unfold bind at 1 in Hrun. rewrite Hcopy in Hrun.
  unfold bind at 1, ext at 1 in Hrun. simpl in Hrun.
  destruct (call "st.statify" _ _ _ _) as [[[sc0|e] h2] st2] eqn:E1;
    [|discriminate].
  destruct (frame_call _ _ _ _ _ _ _ _ r (ODict d) Hf E1) as [Hr2 Hsc].
  { now apply lookup_app_l_Some. }
  { rewrite handed_statify. simpl. lia. }
  unfold bind at 1, ext at 1 in Hrun. simpl in Hrun.
  destruct (call "st.path" _ _ _ _) as [[[sp0|e] h3] st3] eqn:E2;
    [|discriminate].
  destruct (frame_call _ _ _ _ _ _ _ _ r (ODict d) Hf E2) as [Hr3 Hsp];
    [exact Hr2 | |].
  { unfold handed. simpl. rewrite app_nil_r. intros [H | H]; [lia | auto]. }
  assert (Hrest : forall o,
            (l <- ext "st.sprintrl" [sp0] [("chemformula", PBool true)] ;;
             print_ [l] ;; ret (PRef (length (heap w)), sc0, sp0))
              {| heap := h3; lib := st3; out := o;
                 log := (log w ++ [Ev "st.statify" [PRef (length (heap w))]
                                     [("chemostats", strs cs); ("flowstats", strs fs)]
                                     (Ok sc0)])
                        ++ [Ev "st.path" [PRef (length (heap w)); sc0] [] (Ok sp0)] |}
            = (Ok (s, sc, sp), w') ->
            s = PRef (length (heap w)) /\ sc = sc0 /\ sp = sp0 /\
            heap w' !! r = Some (ODict d) /\
            exists c, log w' = log w ++
              [Ev "st.statify" [s] [("chemostats", strs cs); ("flowstats", strs fs)] (Ok sc);
               Ev "st.path" [s; sc] [] (Ok sp); c]).
  { intros o. unfold bind at 1, ext at 1. simpl.
    destruct (call "st.sprintrl" _ _ _ _) as [[[l|e] h4] st4] eqn:E3;
      [|discriminate].
    destruct (frame_call _ _ _ _ _ _ _ _ r (ODict d) Hf E3) as [Hr4 _];
      [exact Hr3 | |].
    { unfold handed. simpl. now rewrite !app_nil_r. }
    rewrite print_then. unfold ret. intros H. injection H as <- <- <- <-.
    simpl. repeat split; [exact Hr4|]. eexists. now rewrite <- !app_assoc. }
  assert (Hend : s = PRef (length (heap w)) /\ sc = sc0 /\ sp = sp0 /\
            heap w' !! r = Some (ODict d) /\
            exists c, log w' = log w ++
              [Ev "st.statify" [s] [("chemostats", strs cs); ("flowstats", strs fs)] (Ok sc);
               Ev "st.path" [s; sc] [] (Ok sp); c]).
  { destruct verbose.
    - destruct (skip_prints (sorted cs) (fun stat => [PStr (ch stat +:+ ",")])
                  (fun _ => l <- ext "st.sprintrl" [sp0] [("chemformula", PBool true)] ;;
                            print_ [l] ;; ret (PRef (length (heap w)), sc0, sp0))
                  {| heap := h3; lib := st3;
                     out := (out w ++ [Printed [PStr "Chemostats:"; strs (sorted cs)]])
                            ++ [Printed [PStr "Flowstats:"; strs (sorted fs)]];
                     log := (log w ++ [Ev "st.statify" [PRef (length (heap w))]
                                         [("chemostats", strs cs); ("flowstats", strs fs)]
                                         (Ok sc0)])
                            ++ [Ev "st.path" [PRef (length (heap w)); sc0] [] (Ok sp0)] |})
        as [o Ho].
      rewrite Ho in Hrun. exact (Hrest _ Hrun).
    - unfold bind at 1 in Hrun. simpl in Hrun. exact (Hrest _ Hrun). }
  destruct Hend as (Hs & _ & _ & Hheap & Hlog).
  split; [exact Hs|]. split; [rewrite Hs; intros H; injection H; lia|].
  split; [simpl; now rewrite Hr, Hs|].
  split; [simpl; now rewrite Hr|].
  split; [exact Hheap | exact Hlog].
Qed.

(** ** What the analysis functions print *)

Lemma ext_inv fn args kw w r w' :
  ext fn args kw w = (r, w') ->
  out w' = out w /\ log w' = log w ++ [Ev fn args kw r].
Proof.
  unfold ext. destruct (call fn args kw (heap w) (lib w)) as [[r0 h] st].
  intros H. injection H as <- <-. now split.
Qed.

Lemma copy_copy_inv v w r w' :
  copy_copy v w = (r, w') -> out w' = out w.
Proof.
  destruct v; simpl; try (intros H; now injection H as <- <-).
  destruct (heap w !! r0) as [[d|]|]; intros H;
    try (now apply ext_inv in H); now injection H as <- <-.
Qed.

Lemma for_each_print_out (l : list string) (f : string -> list pyval) w :
  for_each l (fun x => print_ (f x)) w =
    (Ok tt, {| heap := heap w; lib := lib w;
               out := out w ++ map (fun x => Printed (f x)) l; log := log w |}).
Proof.
  revert w. induction l as [|x l IH]; intros w.
  - simpl. rewrite app_nil_r. now destruct w.
  - simpl. unfold bind at 1. simpl. rewrite IH. simpl.
    now rewrite <- app_assoc.
Qed.

Lemma bind_run {A B} (m : M A) (k : A -> M B) w :
  bind m k w =
  match m w with
  | (Ok a, w') => k a w'
  | (Raise e, w') => (Raise e, w')
  end.
Proof. reflexivity. Qed.

(** The optional chemostat lines never fail and only print. *)
Lemma verbose_lines_run {A} (verbose : bool) cs (k : unit -> M A) w :
  bind (if verbose
        then for_each (sorted cs) (fun stat => print_ [PStr (ch stat +:+ ",")])
        else ret tt) k w =
  k tt {| heap := heap w; lib := lib w;
          out := out w ++ verbose_lines verbose cs; log := log w |}.
Proof.
  rewrite bind_run. destruct verbose; simpl.
  - now rewrite (for_each_print_out (sorted cs) (fun stat => [PStr (ch stat +:+ ",")])).
  - rewrite app_nil_r. now destruct w.
Qed.

(** What is printed from the optional lines on. *)
Lemma typeset_tail_output {A} (verbose : bool) cs sp (t : A) w :
  let '(r, w') :=
    ((if verbose
      then for_each (sorted cs) (fun stat => print_ [PStr (ch stat +:+ ",")])
      else ret tt) ;;
     l <- ext "st.sprintrl" [sp] [("chemformula", PBool true)] ;;
     print_ [l] ;;
     ret t) w in
  match r with
  | Ok t' =>
      t' = t /\
      exists l, out w' = out w ++ verbose_lines verbose cs ++ [Printed [l]] /\
        last (log w') = Some (Ev "st.sprintrl" [sp] [("chemformula", PBool true)] (Ok l))
  | Raise _ => out w' = out w ++ verbose_lines verbose cs
  end.
Proof.
  rewrite verbose_lines_run, bind_run.
  destruct (ext "st.sprintrl" _ _ _) as [[l|e] w1] eqn:E.
  - apply ext_inv in E. destruct E as [Ho Hl]. rewrite print_then. simpl.
    split; [reflexivity|]. exists l. rewrite Ho, Hl. simpl.
    split; [now rewrite app_assoc | apply last_snoc].
  - apply ext_inv in E. now destruct E as [-> _].
Qed.

(** X5. Both analysis functions print the two header lines before any
    library call, so also when a call fails.  A run that returns has then
    printed the chemostat lines asked for by [verbose] and, last, what
    [st.sprintrl] returned for the path; a run that raises has printed
    the header and at most the chemostat lines. *)
Theorem analysis_functions_print_header_then_path S bg phi cs fs verbose w :
  (let '(r, w') := Pathway S cs fs verbose w in
   exists rest, out w' = out w ++ header cs fs ++ rest /\
     match r with
     | Ok (s, sc, sp) =>
         exists l, rest = verbose_lines verbose cs ++ [Printed [l]] /\
           last (log w') =
             Some (Ev "st.sprintrl" [sp] [("chemformula", PBool true)] (Ok l))
     | Raise _ => rest = [] \/ rest = verbose_lines verbose cs
     end) /\
  (let '(r, w') := pathway bg phi cs fs false verbose w in
   exists rest, out w' = out w ++ header cs fs ++ rest /\
     match r with
     | Ok (s, sc, sp, Phip) =>
         exists l, rest = verbose_lines verbose cs ++ [Printed [l]] /\
           last (log w') =
             Some (Ev "st.sprintrl" [sp] [("chemformula", PBool true)] (Ok l))
     | Raise _ => rest = [] \/ rest = verbose_lines verbose cs
     end).
Proof.
  split.
  - unfold Pathway. rewrite !print_then. cbn [heap lib out log].
    set (w0 := {| heap := _; lib := _; out := _; log := log w |}).
    assert (H0 : out w0 = out w ++ header cs fs).
    { unfold w0, header. simpl. now rewrite <- app_assoc. }
    clearbody w0. rewrite bind_run.
    destruct (copy_copy S w0) as [[s|e] w1] eqn:Ec; apply copy_copy_inv in Ec;
      [|exists []; rewrite app_nil_r, Ec; auto].
    rewrite bind_run.
    destruct (ext "st.statify" _ _ w1) as [[sc|e] w2] eqn:E1;
      apply ext_inv in E1; destruct E1 as [O1 _];
      [|exists []; rewrite app_nil_r, O1, Ec; auto].
    rewrite bind_run.
    destruct (ext "st.path" _ _ w2) as [[sp|e] w3] eqn:E2;
      apply ext_inv in E2; destruct E2 as [O2 _];
      [|exists []; rewrite app_nil_r, O2, O1, Ec; auto].
    pose proof (typeset_tail_output verbose cs sp (s, sc, sp) w3) as T.
    cbv beta in *.
    destruct (bind _ _ w3) as [[[[s' sc'] sp']|e] w'].
    + destruct T as [E (l & Hout & Hlast)]. injection E as -> -> ->.
      exists (verbose_lines verbose cs ++ [Printed [l]]).
      split; [now rewrite Hout, O2, O1, Ec, H0, <- app_assoc | eauto].
    + exists (verbose_lines verbose cs).
      split; [now rewrite T, O2, O1, Ec, H0, <- app_assoc | auto].
  - unfold pathway. rewrite !print_then. cbn [heap lib out log].
    set (w0 := {| heap := _; lib := _; out := _; log := log w |}).
    assert (H0 : out w0 = out w ++ header cs fs).
    { unfold w0, header. simpl. now rewrite <- app_assoc. }
    clearbody w0. rewrite bind_run.
    destruct (ext "st.stoich" _ _ w0) as [[s|e] w1] eqn:Ec;
      apply ext_inv in Ec; destruct Ec as [Ec _];
      [|exists []; rewrite app_nil_r, Ec; auto].
    rewrite bind_run.
    destruct (ext "st.statify" _ _ w1) as [[sc|e] w2] eqn:E1;
      apply ext_inv in E1; destruct E1 as [O1 _];
      [|exists []; rewrite app_nil_r, O1, Ec; auto].
    rewrite bind_run.
    destruct (ext "st.path" _ _ w2) as [[sp|e] w3] eqn:E2;
      apply ext_inv in E2; destruct E2 as [O2 _];
      [|exists []; rewrite app_nil_r, O2, O1, Ec; auto].
    pose proof (typeset_tail_output verbose cs sp (s, sc, sp, PInt 0) w3) as T.
    cbv beta in *.
    destruct (bind _ _ w3) as [[[[[s' sc'] sp'] p']|e] w'].
    + destruct T as [E (l & Hout & Hlast)]. injection E as -> -> -> ->.
      exists (verbose_lines verbose cs ++ [Printed [l]]).
      split; [now rewrite Hout, O2, O1, Ec, H0, <- app_assoc | eauto].
    + exists (verbose_lines verbose cs).
      split; [now rewrite T, O2, O1, Ec, H0, <- app_assoc | auto].
Qed.




(** ** The calls of the analysis functions, in order *)














(** X8. The [verbose] flag changes what is printed and nothing else:
    with and without it a run returns the same value or raises the same
    exception, makes the same calls and leaves the same heap and library
    state. *)
Theorem verbose_changes_only_the_output :
  (forall S cs fs verbose w,
     same_but_output (Pathway S cs fs verbose w) (Pathway S cs fs false w)) /\
  (forall bg phi cs fs computePhi verbose w,
     same_but_output (pathway bg phi cs fs computePhi verbose w)
       (pathway bg phi cs fs computePhi false w)).
Proof.
  split; intros.
  - unfold Pathway. rewrite !print_then.
    apply same_but_output_bind;
      [apply uniform_copy_copy | now repeat split | intros s w1 w1' H1].
    apply same_but_output_bind; [apply uniform_ext | exact H1 | intros sc w2 w2' H2].
    apply same_but_output_bind; [apply uniform_ext | exact H2 | intros sp w3 w3' H3].
    rewrite !verbose_lines_run.
    assert (Hu : uniform true
              (l <- ext "st.sprintrl" [sp] [("chemformula", PBool true)] ;;
               print_ [l] ;; ret (s, sc, sp))) by uniform_steps.
    apply Hu. destruct H3 as (Hh & Hl & Hlog). now repeat split.
  - unfold pathway. rewrite !print_then.
    apply same_but_output_bind;
      [apply uniform_ext | now repeat split | intros s w1 w1' H1].
    apply same_but_output_bind; [apply uniform_ext | exact H1 | intros sc w2 w2' H2].
    apply same_but_output_bind; [apply uniform_ext | exact H2 | intros sp w3 w3' H3].
    rewrite !verbose_lines_run.
    match goal with
    | |- same_but_output (?k _) (?k' _) =>
        assert (Hu : uniform true k) by (cbv beta; uniform_steps)
    end.
    apply Hu. destruct H3 as (Hh & Hl & Hlog). now repeat split.
Qed.

(** ** More on the traces of the notebooks *)

Lemma latex_steps_sound (R : list Event) :
  all_steps latex_step R -> every_call latex_shows_typeset (rev R).
Proof.
  intros HQ before ev after E. apply rev_split in E. subst R.
  pose proof (all_steps_split _ _ _ _ HQ) as H. revert H.
  unfold latex_step, latex_shows_typeset.
  destruct (is_call "disp.Latex" ev); [|auto].
  destruct (rev before) as [|prev older] eqn:Eb; [intros []|].
  intros (Hf & t & Hr & Ha). exists (rev older), prev, t.
  split; [|auto]. rewrite <- (rev_involutive before), Eb. reflexivity.
Qed.

Lemma stoich_steps_sound (R : list Event) :
  all_steps stoich_step R -> every_call statify_follows_stoich (rev R).
Proof.
  intros HQ before ev after E. apply rev_split in E. subst R.
  pose proof (all_steps_split _ _ _ _ HQ) as H. revert H.
  unfold stoich_step, statify_follows_stoich.
  destruct (is_call "st.statify" ev); [|auto].
  intros (s & Ha & Hex). exists s. split; [exact Ha|].
  rewrite <- (rev_involutive before). now apply Exists_rev.
Qed.

Lemma EcoliPPP_latex :
  traces latex_step (fun r R => completes_with "disp.Latex" 4 r R) []
    EcoliPPP_notebook.
Proof. unfold EcoliPPP_notebook. run_trace. Qed.

Lemma ModularEcoli_latex :
  traces latex_step (fun r R => completes_with "disp.Latex" 14 r R) []
    ModularEcoli_notebook.
Proof. unfold ModularEcoli_notebook. run_trace. Qed.

Lemma ModularEcoli_stoich :
  traces stoich_step (fun r R => completes_with "st.statify" 10 r R) []
    ModularEcoli_notebook.
Proof. unfold ModularEcoli_notebook. run_trace. Qed.

(** X9. In both notebooks everything handed to [disp.Latex] is what the
    library call just before it, a call of [st.sprintrl], returned.  A
    run of EcoliPPP that reaches its end has shown four such texts, a run
    of ModularEcoli fourteen. *)
Theorem latex_shows_what_sprintrl_typeset h st :
  every_call latex_shows_typeset (calls_made EcoliPPP_notebook (session h st)) /\
  completes_with "disp.Latex" 4 (fst (EcoliPPP_notebook (session h st)))
    (calls_made EcoliPPP_notebook (session h st)) /\
  every_call latex_shows_typeset (calls_made ModularEcoli_notebook (session h st)) /\
  completes_with "disp.Latex" 14 (fst (ModularEcoli_notebook (session h st)))
    (calls_made ModularEcoli_notebook (session h st)).
Proof.
  destruct (traces_session _ _ _ h st EcoliPPP_latex) as (R1 & E1 & Q1 & C1).
  destruct (traces_session _ _ _ h st ModularEcoli_latex) as (R2 & E2 & Q2 & C2).
  rewrite E1, E2. repeat split.
  - now apply latex_steps_sound.
  - now apply completes_rev.
  - now apply latex_steps_sound.
  - now apply completes_rev.
Qed.

(** X10. In ModularEcoli every [st.statify] is applied to a record that
    an earlier call of [st.stoich] returned; a run that reaches its end
    has made ten such calls. *)
Theorem statify_is_applied_to_a_stoich_record h st :
  every_call statify_follows_stoich
    (calls_made ModularEcoli_notebook (session h st)) /\
  completes_with "st.statify" 10 (fst (ModularEcoli_notebook (session h st)))
    (calls_made ModularEcoli_notebook (session h st)).
Proof.
  destruct (traces_session _ _ _ h st ModularEcoli_stoich) as (R1 & E1 & Q1 & C1).
  rewrite E1. split.
  - now apply stoich_steps_sound.
  - now apply completes_rev.
Qed.

Lemma choose_steps_sound (R : list Event) :
  all_steps choose_step R -> every_call choose_follows_extract (rev R).
Proof.
  intros HQ before ev after E. apply rev_split in E. subst R.
  pose proof (all_steps_split _ _ _ _ HQ) as H. revert H.
  unfold choose_step, choose_follows_extract.
  destruct (is_call "Extract.choose" ev); [|auto].
  intros (sm & Ha & Hex & Hk). exists sm. split; [exact Ha|]. split; [|exact Hk].
  rewrite <- (rev_involutive before). now apply Exists_rev.
Qed.

Lemma EcoliPPP_choose :
  traces choose_step (fun r R => completes_with "Extract.choose" 1 r R) []
    EcoliPPP_notebook.
Proof. unfold EcoliPPP_notebook. run_trace. Qed.

Lemma ModularEcoli_choose :
  traces choose_step (fun r R => completes_with "Extract.choose" 5 r R) []
    ModularEcoli_notebook.
Proof. unfold ModularEcoli_notebook. run_trace. Qed.

(** X12. In both notebooks every sub-model is chosen from a model that an
    earlier call of [Extract.extract] returned, by a list of reaction
    names; a run that reaches its end has chosen one sub-model in
    EcoliPPP and five in ModularEcoli. *)
Theorem submodels_are_chosen_from_the_extracted_model h st :
  every_call choose_follows_extract (calls_made EcoliPPP_notebook (session h st)) /\
  completes_with "Extract.choose" 1 (fst (EcoliPPP_notebook (session h st)))
    (calls_made EcoliPPP_notebook (session h st)) /\
  every_call choose_follows_extract
    (calls_made ModularEcoli_notebook (session h st)) /\
  completes_with "Extract.choose" 5 (fst (ModularEcoli_notebook (session h st)))
    (calls_made ModularEcoli_notebook (session h st)).
Proof.
  destruct (traces_session _ _ _ h st EcoliPPP_choose) as (R1 & E1 & Q1 & C1).
  destruct (traces_session _ _ _ h st ModularEcoli_choose) as (R2 & E2 & Q2 & C2).
  rewrite E1, E2. repeat split.
  - now apply choose_steps_sound.
  - now apply completes_rev.
  - now apply choose_steps_sound.
  - now apply completes_rev.
Qed.

(** ** Copying an entry from one record to another *)

Lemma getitem_record (r : nat) (d : gmap string pyval) key (w : World) :
  heap w !! r = Some (ODict d) ->
  getitem (PRef r) key w =
    match d !! key with
    | Some v => (Ok v, w)
    | None => (Raise (PyExc "KeyError" (PStr key)), w)
    end.
Proof. intros H. unfold getitem. rewrite H. now destruct (d !! key). Qed.

Lemma setitem_record (r : nat) (d : gmap string pyval) key v (w : World) :
  heap w !! r = Some (ODict d) ->
  setitem (PRef r) key v w =
    (Ok tt, {| heap := <[r := ODict (<[key := v]> d)]> (heap w);
               lib := lib w; out := out w; log := log w |}).
Proof. intros H. unfold setitem. now rewrite H. Qed.

(** X11. [s['reaction'] = s0['reaction']] on two records: when [s0] has
    the entry, [s] has it afterwards with the same value, the other
    entries of [s] and the record [s0] are as before, and no library is
    called; when [s0] lacks the entry, a [KeyError] is raised and nothing
    has changed. *)
Theorem reaction_entry_is_copied (r r0 : nat) (d d0 : gmap string pyval)
    (w : World) :
  heap w !! r = Some (ODict d) ->
  heap w !! r0 = Some (ODict d0) ->
  r <> r0 ->
  let run := (x <- getitem (PRef r0) "reaction" ;; setitem (PRef r) "reaction" x) w in
  match d0 !! "reaction" with
  | Some v =>
      fst run = Ok tt /\
      heap (snd run) !! r = Some (ODict (<["reaction" := v]> d)) /\
      fst (getitem (PRef r) "reaction" (snd run)) = Ok v /\
      (forall key, key <> "reaction" ->
         fst (getitem (PRef r) key (snd run)) = fst (getitem (PRef r) key w)) /\
      heap (snd run) !! r0 = Some (ODict d0) /\
      log (snd run) = log w /\ lib (snd run) = lib w
  | None =>
      run = (Raise (PyExc "KeyError" (PStr "reaction")), w)
  end.
Proof.
  intros Hr Hr0 Hne run. unfold run. clear run. rewrite bind_run.
  rewrite (getitem_record r0 d0 "reaction" w Hr0).
  destruct (d0 !! "reaction") as [v|] eqn:Ev; [|reflexivity].
  rewrite (setitem_record r d "reaction" v w Hr).
  assert (Hlt : r < length (heap w)) by (now apply lookup_lt_Some in Hr).
  set (w' := {| heap := _; lib := lib w; out := out w; log := log w |}).
  assert (Hr' : heap w' !! r = Some (ODict (<["reaction" := v]> d))).
  { unfold w'. cbn [heap]. now apply list_lookup_insert_eq. }
  cbn [fst snd].
  split; [reflexivity|]. split; [exact Hr'|]. split; [|split; [|split]].
  - rewrite (getitem_record r _ "reaction" w' Hr'). now rewrite lookup_insert_eq.
  - intros key Hk. rewrite (getitem_record r _ key w' Hr'),
      (getitem_record r d key w Hr).
    rewrite lookup_insert_ne by congruence. now destruct (d !! key).
  - unfold w'. cbn [heap]. now rewrite list_lookup_insert_ne.
  - now split.
Qed.


End Notebooks.

(** * Results on the pure functions and on concrete runs *)

(** ** The pure functions *)

Lemma append_nil_l (b : string) : "" +:+ b = b.
Proof. reflexivity. Qed.

Lemma append_cons (x : ascii) (a b : string) :
  String x a +:+ b = String x (a +:+ b).
Proof. reflexivity. Qed.

Lemma append_assoc (a b c : string) : (a +:+ b) +:+ c = a +:+ (b +:+ c).
Proof.
  induction a as [|x a IH]; [reflexivity|].
  rewrite !append_cons. now rewrite IH.
Qed.

Lemma append_empty_r (a : string) : a +:+ "" = a.
Proof.
  induction a as [|x a IH]; [reflexivity|].
  rewrite append_cons. now rewrite IH.
Qed.

Lemma length_append (a b : string) :
  String.length (a +:+ b) = String.length a + String.length b.
Proof.
  induction a as [|x a IH]; [reflexivity|].
  rewrite append_cons. simpl. now rewrite IH.
Qed.

Lemma substring_append_l (a b : string) :
  substring 0 (String.length a) (a +:+ b) = a.
Proof.
  induction a as [|x a IH].
  - rewrite append_nil_l. now destruct b.
  - rewrite append_cons. simpl. now rewrite IH.
Qed.

(** Dropping the last two characters undoes appending a separator. *)
Lemma slice_to_separator (a : string) : slice_to (-2) (a +:+ ", ") = a.
Proof.
  unfold slice_to. rewrite length_append. simpl String.length.
  replace (Z.to_nat _) with (String.length a) by (simpl; lia).
  apply substring_append_l.
Qed.

(** The loop of [printChem] from any accumulator. *)
Lemma printChem_loop (chem : list string) (acc : string) :
  fold_left (fun Chem c => Chem +:+ ("\ch{" +:+ c +:+ "}, ")) chem acc =
  acc +:+ fold_left (fun Chem c => Chem +:+ ("\ch{" +:+ c +:+ "}, ")) chem "".
Proof.
  revert acc. induction chem as [|c chem IH]; intros acc.
  - simpl. now rewrite append_empty_r.
  - simpl fold_left. rewrite (IH (acc +:+ _)), (IH ("" +:+ _)).
    now rewrite append_nil_l, append_assoc.
Qed.

(** On a list that is not empty the accumulator is the joined names
    followed by one more separator. *)
Lemma printChem_accumulator (c : string) (chem : list string) :
  fold_left (fun Chem c => Chem +:+ ("\ch{" +:+ c +:+ "}, ")) (c :: chem) "" =
  printChem_spec (c :: chem) +:+ ", ".
Proof.
  revert c. induction chem as [|c' chem IH]; intros c.
  - unfold printChem_spec. simpl. rewrite append_nil_l.
    now rewrite !append_assoc.
  - change (fold_left _ (c :: c' :: chem) "")
      with (fold_left (fun Chem c => Chem +:+ ("\ch{" +:+ c +:+ "}, "))
              (c' :: chem) ("" +:+ ("\ch{" +:+ c +:+ "}, "))).
    rewrite printChem_loop, IH, append_nil_l.
    unfold printChem_spec. simpl. now rewrite !append_assoc.
Qed.

(** C10. For every list of names, [printChem] returns the names, each
    wrapped as [\ch{name}], joined by a comma and a blank with no
    separator at the end; on the empty list it returns the empty string. *)
Theorem printChem_joins_wrapped_names (chem : list string) :
  printChem chem = printChem_spec chem /\ printChem [] = "".
Proof.
  split; [|reflexivity].
  destruct chem as [|c chem]; [reflexivity|].
  unfold printChem. rewrite printChem_accumulator. apply slice_to_separator.
Qed.

(** C9. [Chemostats(start, end)] is the seven base species, then
    [start], then the elements of [end] when [end] is not [None]; so every
    result holds the base species, a result for [end = None] has eight
    elements, and the default start is G6P. *)
Theorem Chemostats_lists_base_start_end (start : string) (end_ : option (list string)) :
  Chemostats start end_ =
    ["ADP"; "ATP"; "CO2"; "H"; "H2O"; "NADP"; "NADPH"] ++ [start] ++
    match end_ with Some e => e | None => [] end /\
  Forall (fun x => In x (Chemostats start end_)) base_chemostats /\
  length (Chemostats start None) = 8 /\
  Chemostats_default_start = "G6P" /\ Chemostats_default_end = None.
Proof.
  repeat split.
  - destruct end_ as [e|]; reflexivity.
  - apply List.Forall_forall. intros x Hx. unfold Chemostats.
    destruct end_ as [e|]; repeat (apply in_or_app; left); exact Hx.
Qed.

(** ** Concrete runs *)

(** The small library changes no object and returns a new one. *)
Lemma toy_call_respects_frame : respects_frame unit toy_call.
Proof.
  intros fn args kw h st r h' st' E. unfold toy_call in E.
  injection E as <- <- <-. split.
  - intros l o Hl _. now apply lookup_app_l_Some.
  - intros v l Hv Hin. injection Hv as <-. simpl in Hin.
    destruct Hin as [<- | []]. now right.
Qed.

(** On the small library both notebooks run to their end. *)
Example notebooks_run_on_toy_library :
  fst (EcoliPPP_notebook unit toy_call (session unit [] tt)) = Ok tt /\
  fst (ModularEcoli_notebook unit toy_call (session unit [] tt)) = Ok tt.
Proof. split; vm_compute; reflexivity. Qed.

(** When [st.path] raises, [Pathway] raises the same exception, after
    the calls of [st.statify] and [st.path] and nothing more. *)
Example Pathway_hands_on_the_failure_of_path :
  fst (Pathway unit failing_path_call (PRef 0) ["ATP"] ["PGI"] false
         (session unit [toy_record] tt))
    = Raise (PyExc "ValueError" (PStr "singular")) /\
  map ev_fn (log unit (snd (Pathway unit failing_path_call (PRef 0) ["ATP"] ["PGI"] false
                              (session unit [toy_record] tt))))
    = ["st.statify"; "st.path"].
Proof. split; vm_compute; reflexivity. Qed.

(** A run of [Pathway] on a record, with the small library: the record
    at address 0 is copied to address 1 and is unchanged afterwards. *)
Lemma Pathway_leaves_its_argument_on_toy_library :
  let w := session unit [toy_record] tt in
  let w' := snd (Pathway unit toy_call (PRef 0) ["ATP"] ["PGI"] false w) in
  respects_frame unit toy_call /\
  heap unit w !! 0 = Some toy_record /\
  Pathway unit toy_call (PRef 0) ["ATP"] ["PGI"] false w
    = (Ok (PRef 1, PRef 2, PRef 3), w') /\
  PRef 1 <> PRef 0 /\
  heap unit w' !! 0 = Some toy_record.
Proof.
  intros w w'.
  assert (Hf : respects_frame unit toy_call) by exact toy_call_respects_frame.
  assert (Hr : heap unit w !! 0 = Some toy_record) by reflexivity.
  assert (Hrun : Pathway unit toy_call (PRef 0) ["ATP"] ["PGI"] false w
                 = (Ok (PRef 1, PRef 2, PRef 3), w')) by (vm_compute; reflexivity).
  destruct (Pathway_leaves_its_argument unit toy_call 0 _ ["ATP"] ["PGI"] false w
              (PRef 1) (PRef 2) (PRef 3) w' Hf Hr Hrun)
    as (_ & Hne & _ & _ & Hkeep & _).
  split; [exact Hf|]. split; [exact Hr|]. split; [exact Hrun|].
  split; [exact Hne | exact Hkeep].
Defined.


(** ** More on the pure functions *)

Lemma printChem_cons (c : string) (chem : list string) :
  printChem (c :: chem) = printChem_spec (c :: chem).
Proof.
  unfold printChem. rewrite printChem_accumulator. apply slice_to_separator.
Qed.

Lemma concat_app_nonempty (sep x y : string) (a b : list string) :
  String.concat sep ((x :: a) ++ (y :: b)) =
  String.concat sep (x :: a) +:+ sep +:+ String.concat sep (y :: b).
Proof.
  revert x. induction a as [|x' a IH]; intros x.
  - reflexivity.
  - change (String.concat sep ((x :: x' :: a) ++ y :: b))
      with (x +:+ sep +:+ String.concat sep ((x' :: a) ++ y :: b)).
    rewrite IH.
    change (String.concat sep (x :: x' :: a))
      with (x +:+ sep +:+ String.concat sep (x' :: a)).
    now rewrite !append_assoc.
Qed.

(** X1. [printChem] of two lists that are not empty, one after the
    other, is [printChem] of the first, a comma and a blank, and
    [printChem] of the second; on one name it is [ch] of the name. *)
Theorem printChem_of_appended_lists (x y : string) (a b : list string) :
  printChem ((x :: a) ++ (y :: b)) =
  printChem (x :: a) +:+ ", " +:+ printChem (y :: b) /\
  printChem [x] = ch x.
Proof.
  split.
  - change ((x :: a) ++ y :: b) with (x :: (a ++ y :: b)).
    rewrite !printChem_cons. unfold printChem_spec.
    change (x :: (a ++ y :: b)) with ((x :: a) ++ y :: b).
    rewrite map_app. apply concat_app_nonempty.
  - rewrite printChem_cons. reflexivity.
Qed.

Lemma base_chemostats_NoDup : NoDup base_chemostats.
Proof.
  unfold base_chemostats.
  repeat (apply NoDup_cons_2; [intros H; apply list_elem_of_In in H; simpl in H;
                               intuition discriminate|]).
  apply NoDup_nil_2.
Qed.

(** X2. [Chemostats] removes no duplicate: its result is free of
    duplicates exactly when [start] is none of the seven base species,
    [end] has no duplicate, and no name of [end] is a base species or
    [start]. *)
Theorem Chemostats_keeps_duplicates (start : string) (end_ : option (list string)) :
  NoDup (Chemostats start end_) <->
  ~ In start base_chemostats /\ NoDup (elements_of end_) /\
  forall x, In x (elements_of end_) -> ~ In x base_chemostats /\ x <> start.
Proof.
  assert (E : Chemostats start end_ = (base_chemostats ++ [start]) ++ elements_of end_).
  { destruct end_; [reflexivity|]. unfold Chemostats. simpl elements_of.
    now rewrite app_nil_r. }
  rewrite E, !NoDup_app. split.
  - intros ((Hb & Hs & _) & He & Hn). split; [|split; [exact Hn|]].
    + intros Hin. apply (Hs start); [now apply list_elem_of_In|].
      now apply list_elem_of_singleton.
    + intros x Hx. split.
      * intros Hb'. apply (He x); [|now apply list_elem_of_In].
        apply elem_of_app. left. now apply list_elem_of_In.
      * intros ->. apply (He start); [|now apply list_elem_of_In].
        apply elem_of_app. right. now apply list_elem_of_singleton.
  - intros (Hs & Hn & He). split; [split; [exact base_chemostats_NoDup|split]|split].
    + intros x Hx Hx'. apply list_elem_of_singleton in Hx'. subst x.
      apply Hs. now apply list_elem_of_In.
    + apply NoDup_singleton.
    + intros x Hx Hx'. apply list_elem_of_In in Hx'. destruct (He x Hx') as [H1 H2].
      apply elem_of_app in Hx. destruct Hx as [Hx | Hx].
      * apply H1. now apply list_elem_of_In.
      * apply list_elem_of_singleton in Hx. contradiction.
    + exact Hn.
Qed.

(** ** The header lines *)

Lemma leb_rel_trans (a b c : string) : leb_rel a b -> leb_rel b c -> leb_rel a c.
Proof.
  unfold leb_rel, String.leb. revert b c.
  induction a as [|x a IH]; intros [|y b] [|z c]; simpl; try easy.
  unfold Ascii.compare.
  destruct (N.compare_spec (N_of_ascii x) (N_of_ascii y)) as [Exy | Lxy | Gxy];
    destruct (N.compare_spec (N_of_ascii y) (N_of_ascii z)) as [Eyz | Lyz | Gyz];
    try easy; intros H1 H2.
  - rewrite Exy, Eyz, N.compare_refl. now apply (IH b c).
  - rewrite Exy. now rewrite (proj2 (N.compare_lt_iff _ _) Lyz).
  - rewrite <- Eyz. now rewrite (proj2 (N.compare_lt_iff _ _) Lxy).
  - now rewrite (proj2 (N.compare_lt_iff _ _) (N.lt_trans _ _ _ Lxy Lyz)).
Qed.

#[local] Instance leb_rel_transitive : Transitive leb_rel.
Proof. intros a b c. apply leb_rel_trans. Qed.

#[local] Instance leb_rel_antisym : AntiSymm eq leb_rel.
Proof. intros a b. apply String.leb_antisym. Qed.

Lemma insert_sorted_perm (x : string) (l : list string) :
  Permutation (x :: l) (insert_sorted x l).
Proof.
  induction l as [|y l IH]; simpl; [reflexivity|].
  destruct (String.leb y x); [|reflexivity].
  rewrite <- IH. apply perm_swap.
Qed.

Lemma insert_sorted_ascending (x : string) (l : list string) :
  Sorted leb_rel l -> Sorted leb_rel (insert_sorted x l).
Proof.
  induction l as [|y l IH]; intros Hs; simpl.
  - repeat constructor.
  - apply Sorted_inv in Hs. destruct Hs as [Hs Hh].
    destruct (String.leb y x) eqn:E.
    + constructor; [now apply IH|].
      destruct l as [|z l]; simpl.
      * now constructor.
      * apply HdRel_inv in Hh. destruct (String.leb z x); now constructor.
    + constructor; [now constructor|]. constructor.
      destruct (String.leb_total x y) as [H | H]; [exact H | congruence].
Qed.

Lemma sorted_from (l acc : list string) :
  Sorted leb_rel acc ->
  Sorted leb_rel (fold_left (fun acc x => insert_sorted x acc) l acc) /\
  Permutation (l ++ acc) (fold_left (fun acc x => insert_sorted x acc) l acc).
Proof.
  revert acc. induction l as [|x l IH]; intros acc Hs; simpl.
  - now split.
  - destruct (IH (insert_sorted x acc) (insert_sorted_ascending x acc Hs)) as [H1 H2].
    split; [exact H1|]. rewrite <- H2, <- insert_sorted_perm.
    now rewrite Permutation_middle.
Qed.

Lemma sorted_ascending_permutation (l : list string) :
  Sorted leb_rel (sorted l) /\ Permutation l (sorted l).
Proof.
  destruct (sorted_from l [] (Sorted_nil _)) as [H1 H2].
  now rewrite app_nil_r in H2.
Qed.

Lemma sorted_of_permutation (l l' : list string) :
  Permutation l l' -> sorted l = sorted l'.
Proof.
  intros Hp.
  destruct (sorted_ascending_permutation l) as [H1 H2].
  destruct (sorted_ascending_permutation l') as [H1' H2'].
  apply (Sorted_unique leb_rel); try assumption.
  now rewrite <- H2, <- H2'.
Qed.

(** X3. The header that [pathway] and [Pathway] print lists the
    chemostats and the flowstats they were given, each in ascending order
    of code points and with every name as often as it was given. *)
Theorem header_lists_names_in_ascending_order (cs fs : list string) :
  exists l1 l2,
    header cs fs = [Printed [PStr "Chemostats:"; strs l1];
                    Printed [PStr "Flowstats:"; strs l2]] /\
    Sorted leb_rel l1 /\ Permutation cs l1 /\
    Sorted leb_rel l2 /\ Permutation fs l2.
Proof.
  exists (sorted cs), (sorted fs). split; [reflexivity|].
  destruct (sorted_ascending_permutation cs) as [H1 H2].
  destruct (sorted_ascending_permutation fs) as [H3 H4]. auto.
Qed.

(** X4. The header does not depend on the order in which the chemostats
    and the flowstats are given. *)
Theorem header_ignores_the_order_of_names (cs cs' fs fs' : list string) :
  Permutation cs cs' -> Permutation fs fs' -> header cs fs = header cs' fs'.
Proof.
  intros H1 H2. unfold header.
  now rewrite (sorted_of_permutation cs cs' H1), (sorted_of_permutation fs fs' H2).
Qed.

Lemma header_ignores_the_order_of_names_example :
  Permutation ["G6P"; "ATP"] ["ATP"; "G6P"] /\
  Permutation ["TKT2"; "PGI"] ["PGI"; "TKT2"] /\
  header ["G6P"; "ATP"] ["TKT2"; "PGI"] = header ["ATP"; "G6P"] ["PGI"; "TKT2"].
Proof.
  split; [apply perm_swap|]. split; [apply perm_swap|].
  apply header_ignores_the_order_of_names; apply perm_swap.
Defined.

(** A run of the assignment on two records of the small library. *)
Lemma reaction_entry_is_copied_example :
  let w := session unit [toy_record; ODict ∅] tt in
  heap unit w !! 1 = Some (ODict ∅) /\
  heap unit w !! 0 = Some toy_record /\
  1 <> 0 /\
  fst (getitem unit toy_call (PRef 1) "reaction"
         (snd (bind unit (getitem unit toy_call (PRef 0) "reaction")
                 (fun x => setitem unit toy_call (PRef 1) "reaction" x) w)))
    = Ok (PList []).
Proof.
  intros w.
  assert (H1 : heap unit w !! 1 = Some (ODict ∅)) by reflexivity.
  assert (H0 : heap unit w !! 0 = Some toy_record) by reflexivity.
  assert (Hne : 1 <> 0) by lia.
  split; [exact H1|]. split; [exact H0|]. split; [exact Hne|].
  pose proof (reaction_entry_is_copied unit toy_call 1 0 _ _ w H1 H0 Hne) as H.
  cbv zeta in H.
  change ((_ : gmap string pyval) !! "reaction") with (Some (PList [])) in H.
  exact (proj1 (proj2 (proj2 H))).
Defined.
